(** * cmd/web/server.go: flag parsing, router assembly and request logging

    A shallow embedding of [package web] (ParseArgs, Logger, Serve) together
    with the parts of the Go libraries it drives: [flag] and [strconv] for
    ParseArgs, [gorilla/mux] for the router built by Serve, [net/http]'s
    StripPrefix and [rs/cors]'s option record.  Third-party code is embedded
    function by function, under the names it has in Go. *)

From Stdlib Require Import ZArith String Ascii.
From stdpp Require Import gmap strings list.

Open Scope string_scope.
Open Scope Z_scope.

(** ** Go strings *)

Module strings.

Definition HasPrefix (s prefix : string) : bool := String.prefix prefix s.

Fixpoint last_byte (s : string) : option ascii :=
  match s with
  | EmptyString => None
  | String c EmptyString => Some c
  | String _ s' => last_byte s'
  end.

Definition HasSuffixByte (s : string) (c : ascii) : bool :=
  match last_byte s with
  | Some d => Ascii.eqb c d
  | None => false
  end.

(** [s[n:]] for [n <= len(s)]. *)
Fixpoint drop (n : nat) (s : string) : string :=
  match n, s with
  | O, _ => s
  | S n', String _ s' => drop n' s'
  | S _, EmptyString => EmptyString
  end.

Definition TrimPrefix (s prefix : string) : string :=
  if HasPrefix s prefix then drop (String.length prefix) s else s.

(** [s[:len(s)-1]]. *)
Fixpoint drop_last (s : string) : string :=
  match s with
  | EmptyString => EmptyString
  | String _ EmptyString => EmptyString
  | String c s' => String c (drop_last s')
  end.

Definition len (s : string) : Z := Z.of_nat (String.length s).

(** [ToUpper] on the ASCII letters of an HTTP method name. *)
Definition upper (c : ascii) : ascii :=
  let n := N_of_ascii c in
  if (97 <=? n)%N && (n <=? 122)%N then ascii_of_N (n - 32) else c.

Fixpoint ToUpper (s : string) : string :=
  match s with
  | EmptyString => EmptyString
  | String c s' => String (upper c) (ToUpper s')
  end.

End strings.

(** ** strconv: ParseInt, ParseUint, ParseBool, Itoa *)

Module strconv.

Inductive NumError := ErrSyntax | ErrRange | ErrBase | ErrBitSize.

(** [strconv.IntSize] on the 64-bit platforms the server is built for. *)
Definition IntSize : Z := 64.

Definition maxUint64 : Z := 2 ^ 64 - 1.

Definition byte (c : ascii) : Z := Z.of_N (N_of_ascii c).

(** [lower(c)] is [c | ('x' - 'X')]. *)
Definition lower (c : ascii) : Z := Z.lor (byte c) 32.

Definition is_digit (c : ascii) : bool := (48 <=? byte c) && (byte c <=? 57).
Definition is_letter (c : ascii) : bool := (97 <=? lower c) && (lower c <=? 122).

(** The last character class seen by [underscoreOK]. *)
Inductive saw := SawStart | SawDigit | SawUnderscore | SawOther.

Fixpoint underscore_scan (hex : bool) (s : string) (last : saw) : bool :=
  match s with
  | EmptyString => match last with SawUnderscore => false | _ => true end
  | String c s' =>
      if is_digit c || (hex && (97 <=? lower c) && (lower c <=? 102))
      then underscore_scan hex s' SawDigit
      else if Ascii.eqb c "_"
      then match last with
           | SawDigit => underscore_scan hex s' SawUnderscore
           | _ => false
           end
      else match last with
           | SawUnderscore => false
           | _ => underscore_scan hex s' SawOther
           end
  end.

Definition underscoreOK (s : string) : bool :=
  let s :=
    match s with
    | String c s' => if Ascii.eqb c "-" || Ascii.eqb c "+" then s' else s
    | EmptyString => s
    end in
  match s with
  | String c0 (String c1 s') =>
      if Ascii.eqb c0 "0" &&
         ((lower c1 =? 98) || (lower c1 =? 111) || (lower c1 =? 120))
      then underscore_scan (lower c1 =? 120) s' SawDigit
      else underscore_scan false s SawStart
  | _ => underscore_scan false s SawStart
  end.

(** The digit loop of ParseUint; [n] is a uint64, so [n + d] wraps. *)
Fixpoint parse_digits (base0 : bool) (base cutoff maxVal : Z) (s : string)
    (n : Z) (underscores : bool) : Z * bool * option NumError :=
  match s with
  | EmptyString => (n, underscores, None)
  | String c s' =>
      if Ascii.eqb c "_" && base0
      then parse_digits base0 base cutoff maxVal s' n true
      else
        let d := if is_digit c then Some (byte c - 48)
                 else if is_letter c then Some (lower c - 97 + 10)
                 else None in
        match d with
        | None => (0, underscores, Some ErrSyntax)
        | Some d =>
            if base <=? d then (0, underscores, Some ErrSyntax)
            else if cutoff <=? n then (maxVal, underscores, Some ErrRange)
            else
              let n := (n * base) mod 2 ^ 64 in
              let n1 := (n + d) mod 2 ^ 64 in
              if (n1 <? n) || (maxVal <? n1)
              then (maxVal, underscores, Some ErrRange)
              else parse_digits base0 base cutoff maxVal s' n1 underscores
        end
  end.

Definition ParseUint (s : string) (base bitSize : Z) : Z * option NumError :=
  match s with
  | EmptyString => (0, Some ErrSyntax)
  | String c0 rest =>
      let base0 := base =? 0 in
      let prefixed :=
        if (2 <=? base) && (base <=? 36) then Some (base, s)
        else if base =? 0 then
          if Ascii.eqb c0 "0" then
            match rest with
            | String c1 (String c2 rest') =>
                if lower c1 =? 98 then Some (2, String c2 rest')
                else if lower c1 =? 111 then Some (8, String c2 rest')
                else if lower c1 =? 120 then Some (16, String c2 rest')
                else Some (8, rest)
            | _ => Some (8, rest)
            end
          else Some (10, s)
        else None in
      match prefixed with
      | None => (0, Some ErrBase)
      | Some (base, digits) =>
          if (bitSize <? 0) || (64 <? bitSize) then (0, Some ErrBitSize)
          else
            let bitSize := if bitSize =? 0 then IntSize else bitSize in
            let cutoff := maxUint64 / base + 1 in
            let maxVal := 2 ^ bitSize - 1 in
            match parse_digits base0 base cutoff maxVal digits 0 false with
            | (n, _, Some e) => (n, Some e)
            | (n, underscores, None) =>
                if underscores && negb (underscoreOK s)
                then (0, Some ErrSyntax)
                else (n, None)
            end
      end
  end.

Definition ParseInt (s : string) (base bitSize : Z) : Z * option NumError :=
  match s with
  | EmptyString => (0, Some ErrSyntax)
  | String c0 rest =>
      let '(neg, s') :=
        if Ascii.eqb c0 "+" then (false, rest)
        else if Ascii.eqb c0 "-" then (true, rest)
        else (false, s) in
      let '(un, err) := ParseUint s' base bitSize in
      match err with
      | Some ErrSyntax | Some ErrBase | Some ErrBitSize => (0, err)
      | _ =>
          let bitSize := if bitSize =? 0 then IntSize else bitSize in
          let cutoff := 2 ^ (bitSize - 1) in
          if negb neg && (cutoff <=? un) then (cutoff - 1, Some ErrRange)
          else if neg && (cutoff <? un) then (- cutoff, Some ErrRange)
          else (if neg then - un else un, None)
      end
  end.

Definition ParseBool (str : string) : bool * option NumError :=
  if bool_decide (str ∈ ["1"; "t"; "T"; "TRUE"; "true"; "True"])
  then (true, None)
  else if bool_decide (str ∈ ["0"; "f"; "F"; "FALSE"; "false"; "False"])
  then (false, None)
  else (false, Some ErrSyntax).

Definition digit (d : Z) : ascii := ascii_of_N (Z.to_N (48 + d)).

(** The base-10 loop of [formatBits], writing the buffer from its end; Go
    emits two digits per round from a table, with the same text as result.
    A uint64 has at most 20 decimal digits, which bounds the rounds. *)
Fixpoint formatBits (rounds : nat) (u : Z) (a : string) : string :=
  match rounds with
  | O => a
  | S rounds' =>
      if u <? 10 then String (digit u) a
      else formatBits rounds' (u / 10) (String (digit (u mod 10)) a)
  end.

(** [Itoa(i)] is [FormatInt(int64(i), 10)]. *)
Definition Itoa (i : Z) : string :=
  if i <? 0 then String "-" (formatBits 20 (- i) EmptyString)
  else formatBits 20 i EmptyString.

End strconv.

(** ** Process state and control outcomes

    ParseArgs works on the package-level [flag.CommandLine]; it can return,
    end the process ([os.Exit]) or panic.  Code that threads the flag set is
    written in the monad [M]. *)

Module flag.

Inductive Value :=
| intValue (i : Z)
| stringValue (s : string)
| boolValue (b : bool).

(** A flag; [Val] is the current content of the variable the flag's
    [Value] points to. *)
Record Flag := mkFlag {
  Name : string;
  Usage : string;
  Val : Value;
  DefValue : string
}.

Inductive ErrorHandling := ContinueOnError | ExitOnError | PanicOnError.

Inductive error :=
| ErrHelp
| failure (msg : string).

(** [actual] maps to the same [*Flag] as [formal] in Go; here it keeps the
    names only. *)
Record FlagSet := mkFlagSet {
  parsed : bool;
  actual : gset string;
  formal : gmap string Flag;
  args : list string;
  errorHandling : ErrorHandling
}.

Definition NewFlagSet (h : ErrorHandling) : FlagSet :=
  {| parsed := false; actual := ∅; formal := ∅; args := [];
     errorHandling := h |}.

Definition Value_String (v : Value) : string :=
  match v with
  | intValue i => strconv.Itoa i
  | stringValue s => s
  | boolValue b => if b then "true" else "false"
  end.

Definition IsBoolFlag (v : Value) : bool :=
  match v with boolValue _ => true | _ => false end.

(** [Value.Set]: the variable is assigned even when the text is ill-formed
    ([*i = intValue(v); return err]). *)
Definition Value_Set (v : Value) (s : string) : Value * option error :=
  match v with
  | intValue _ =>
      let '(i, err) := strconv.ParseInt s 0 strconv.IntSize in
      (intValue i,
       match err with
       | Some strconv.ErrRange => Some (failure "value out of range")
       | Some _ => Some (failure "parse error")
       | None => None
       end)
  | stringValue _ => (stringValue s, None)
  | boolValue _ =>
      let '(b, err) := strconv.ParseBool s in
      (boolValue b,
       match err with Some _ => Some (failure "parse error") | None => None end)
  end.

End flag.

Record process := mkProcess {
  CommandLine : flag.FlagSet;
  os_Args : list string;          (* os.Args[1:] *)
  Stderr : list string
}.

Inductive outcome (A : Type) :=
| Returned (a : A) (p : process)
| Exited (code : Z) (p : process)
| Panicked (msg : string) (p : process).
Arguments Returned {A} a p.
Arguments Exited {A} code p.
Arguments Panicked {A} msg p.

Definition M (A : Type) : Type := process -> outcome A.

Definition panic {A} (msg : string) : M A := fun p => Panicked msg p.
Definition os_Exit {A} (code : Z) : M A := fun p => Exited code p.

Definition ret {A} (a : A) : M A := fun p => Returned a p.

Definition bind {A B} (m : M A) (k : A -> M B) : M B :=
  fun p =>
    match m p with
    | Returned a p' => k a p'
    | Exited code p' => Exited code p'
    | Panicked msg p' => Panicked msg p'
    end.

Declare Scope go_scope.
Delimit Scope go_scope with go.
Notation "x <- m ;; k" := (bind m (fun x => k))
  (at level 100, m at next level, right associativity) : go_scope.
Notation "m >> k" := (bind m (fun _ => k))
  (at level 100, right associativity) : go_scope.
Open Scope go_scope.

Definition getFlags : M flag.FlagSet := fun p => Returned (CommandLine p) p.

Definition putFlags (f : flag.FlagSet) : M unit :=
  fun p => Returned tt {| CommandLine := f; os_Args := os_Args p; Stderr := Stderr p |}.

Definition eprint (line : string) : M unit :=
  fun p => Returned tt {| CommandLine := CommandLine p; os_Args := os_Args p;
                          Stderr := Stderr p ++ [line] |}.

Module flagset.
Import flag.

(** [FlagSet.Var]: registering a name twice panics. *)
Definition Var (value : Value) (name usage : string) : M unit :=
  f <- getFlags;;
  if strings.HasPrefix name "-" then panic ("flag " ++ name ++ " begins with -")
  else if bool_decide ("="%char ∈ list_ascii_of_string name)
  then panic ("flag " ++ name ++ " contains =")
  else
    match formal f !! name with
    | Some _ => panic ("flag redefined: " ++ name)
    | None =>
        putFlags {| parsed := parsed f; actual := actual f;
                    formal := <[name := mkFlag name usage value (Value_String value)]> (formal f);
                    args := args f; errorHandling := errorHandling f |}
    end.

(** [flag.Int], [flag.String] and [flag.Bool] return a pointer to the new
    variable; the pointer is the flag's name, dereferenced through
    [formal]. *)
Definition Int (name : string) (value : Z) (usage : string) : M string :=
  Var (intValue value) name usage >> ret name.
Definition String_ (name value usage : string) : M string :=
  Var (stringValue value) name usage >> ret name.
Definition Bool (name : string) (value : bool) (usage : string) : M string :=
  Var (boolValue value) name usage >> ret name.

Definition deref_int (ptr : string) : M Z :=
  f <- getFlags;;
  match Val <$> formal f !! ptr with
  | Some (intValue i) => ret i
  | _ => panic "invalid memory address or nil pointer dereference"
  end.
Definition deref_string (ptr : string) : M string :=
  f <- getFlags;;
  match Val <$> formal f !! ptr with
  | Some (stringValue s) => ret s
  | _ => panic "invalid memory address or nil pointer dereference"
  end.
Definition deref_bool (ptr : string) : M bool :=
  f <- getFlags;;
  match Val <$> formal f !! ptr with
  | Some (boolValue b) => ret b
  | _ => panic "invalid memory address or nil pointer dereference"
  end.

(** [f.usage()] and [f.failf]: the message and the usage text go to
    standard error. *)
Definition usage : M unit := eprint "Usage:".

Definition failf (msg : string) : M error :=
  eprint msg >> usage>> ret (failure msg).

(** [name[0:i]] and [name[i+1:]] for the first [i >= 1] with
    [name[i] == '=']. *)
Fixpoint cut_eq (name : string) : option (string * string) :=
  match name with
  | EmptyString => None
  | String c rest =>
      if Ascii.eqb c "=" then Some (EmptyString, rest)
      else match cut_eq rest with
           | Some (n, v) => Some (String c n, v)
           | None => None
           end
  end.

Definition split_value (name : string) : string * option string :=
  match name with
  | EmptyString => (name, None)
  | String c rest =>
      match cut_eq rest with
      | Some (n, v) => (String c n, Some v)
      | None => (name, None)
      end
  end.

Definition setArgs (a : list string) : M unit :=
  f <- getFlags;;
  putFlags {| parsed := parsed f; actual := actual f; formal := formal f;
              args := a; errorHandling := errorHandling f |}.

Definition setValue (name : string) (fl : Flag) (v : Value) : M unit :=
  f <- getFlags;;
  putFlags {| parsed := parsed f; actual := actual f;
              formal := <[name := mkFlag (Name fl) (Usage fl) v (DefValue fl)]> (formal f);
              args := args f; errorHandling := errorHandling f |}.

Definition markActual (name : string) : M unit :=
  f <- getFlags;;
  putFlags {| parsed := parsed f; actual := {[name]} ∪ actual f; formal := formal f;
              args := args f; errorHandling := errorHandling f |}.

(** [len(name) == 0 || name[0] == '-' || name[0] == '='] *)
Definition bad_syntax (name : string) : bool :=
  match name with
  | EmptyString => true
  | String n0 _ => Ascii.eqb n0 "-" || Ascii.eqb n0 "="
  end.

(** The tail of parseOne, once the flag [fl] named [name] has been found;
    [rest] is [f.args] after the flag itself. *)
Definition setFlag (name : string) (fl : Flag) (value : option string)
    (rest : list string) : M (bool * option error) :=
  if IsBoolFlag (Val fl) then
    (* special case: doesn't need an arg *)
    let r := Value_Set (Val fl) (default "true" value) in
    setValue name fl r.1 >>
    match r.2 with
    | Some _ =>
        e <- failf ("invalid boolean value for -" ++ name);;
        ret (false, Some e)
    | None => markActual name >> ret (true, None)
    end
  else
    (* It must have a value, which might be the next argument. *)
    let '(value, rest') :=
      match value, rest with
      | None, v :: rest' => (Some v, rest')
      | _, _ => (value, rest)
      end in
    setArgs rest' >>
    match value with
    | None =>
        e <- failf ("flag needs an argument: -" ++ name);;
        ret (false, Some e)
    | Some value =>
        let r := Value_Set (Val fl) value in
        setValue name fl r.1 >>
        match r.2 with
        | Some _ =>
            e <- failf ("invalid value " ++ value ++ " for flag -" ++ name);;
            ret (false, Some e)
        | None => markActual name >> ret (true, None)
        end
    end.

(** [FlagSet.parseOne]: [(seen, err)]. *)
Definition parseOne : M (bool * option error) :=
  f <- getFlags;;
  match args f with
  | [] => ret (false, None)
  | s :: rest =>
      match s with
      | String c0 (String c1 tail) =>
          if negb (Ascii.eqb c0 "-") then ret (false, None)
          else if Ascii.eqb c1 "-" && bool_decide (tail = EmptyString)
          then setArgs rest >> ret (false, None)      (* "--" terminates the flags *)
          else
            let name := if Ascii.eqb c1 "-" then tail else String c1 tail in
            if bad_syntax name
            then e <- failf ("bad flag syntax: " ++ s);; ret (false, Some e)
            else
              (* it's a flag. does it have an argument? *)
              setArgs rest >>
              let nv := split_value name in
              match formal f !! nv.1 with
              | None =>
                  if bool_decide (nv.1 = "help") || bool_decide (nv.1 = "h")
                  then usage >> ret (false, Some ErrHelp)
                  else e <- failf ("flag provided but not defined: -" ++ nv.1);;
                       ret (false, Some e)
              | Some fl => setFlag nv.1 fl nv.2 rest
              end
      | _ => ret (false, None)     (* len(s) < 2 *)
      end
  end.

(** The [for] loop of [FlagSet.Parse].  Every iteration that continues has
    consumed an argument, so [n = len(arguments)] iterations that see a flag
    are always followed by one that does not. *)
Fixpoint parseLoop (n : nat) : M (option error) :=
  r <- parseOne;;
  if r.1 then
    match n with
    | O => ret None
    | S n' => parseLoop n'
    end
  else
    match r.2 with
    | None => ret None
    | Some e =>
        f <- getFlags;;
        match errorHandling f with
        | ContinueOnError => ret (Some e)
        | ExitOnError =>
            match e with
            | ErrHelp => os_Exit 0
            | _ => os_Exit 2
            end
        | PanicOnError => panic "flag: parse error"
        end
    end.

Definition Parse (arguments : list string) : M (option error) :=
  f <- getFlags;;
  putFlags {| parsed := true; actual := actual f; formal := formal f;
              args := arguments; errorHandling := errorHandling f |} >>
  parseLoop (length arguments).

Definition Parsed : M bool := f <- getFlags;; ret (parsed f).

End flagset.

(** [flag.Parse()]: [CommandLine.Parse(os.Args[1:])], errors ignored because
    [CommandLine] is set for [ExitOnError]. *)
Definition flag_Parse : M unit :=
  fun p => (flagset.Parse (os_Args p) >> ret tt) p.

Definition flag_Usage : M unit := flagset.usage.

(** ** WebConfig and ParseArgs (server.go, lines 34-63) *)

Record WebConfig := mkWebConfig {
  LocalPort : Z;
  UIDistPath : string;
  FrontEndServer : string;
  StartRestApi : bool;
  StartWebUI : bool
}.

Definition ParseArgs : M WebConfig :=
  localPortFlag <- flagset.Int "port" 8080 "Port to listen on";;
  frontendServerFlag <- flagset.String_ "front_address" "http://localhost:8001"
    "Front address to allow CORS requests from";;
  startRespApi <- flagset.Bool "start_restapi" true "Set to start a rest api endpoint '/api'";;
  startWebUI <- flagset.Bool "start_webui" true "Set to start a web ui endpoint '/ui'";;
  webuiDist <- flagset.String_ "webui_path" ""
    "Points to a static web ui dist path with the built version of ADK Web UI";;
  flag_Parse >>
  ok <- flagset.Parsed;;
  if negb ok then
    flag_Usage >> panic "Failed to parse flags"
  else
    port <- flagset.deref_int localPortFlag;;
    front <- flagset.deref_string frontendServerFlag;;
    api <- flagset.deref_bool startRespApi;;
    ui <- flagset.deref_bool startWebUI;;
    dist <- flagset.deref_string webuiDist;;
    ret {| LocalPort := port; FrontEndServer := front; StartRestApi := api;
           StartWebUI := ui; UIDistPath := dist |}.

(** ParseArgs up to and including [flag.Parse()] (lines 45-51), and from the
    [flag.Parsed()] test on (lines 52-62); [ParseArgs_split] below shows that
    ParseArgs is the first followed by the second. *)
Definition ParseArgs_flags : M (string * string * string * string * string) :=
  localPortFlag <- flagset.Int "port" 8080 "Port to listen on";;
  frontendServerFlag <- flagset.String_ "front_address" "http://localhost:8001"
    "Front address to allow CORS requests from";;
  startRespApi <- flagset.Bool "start_restapi" true "Set to start a rest api endpoint '/api'";;
  startWebUI <- flagset.Bool "start_webui" true "Set to start a web ui endpoint '/ui'";;
  webuiDist <- flagset.String_ "webui_path" ""
    "Points to a static web ui dist path with the built version of ADK Web UI";;
  flag_Parse >>
  ret (localPortFlag, frontendServerFlag, startRespApi, startWebUI, webuiDist).

Definition ParseArgs_config (ptrs : string * string * string * string * string) : M WebConfig :=
  let '(localPortFlag, frontendServerFlag, startRespApi, startWebUI, webuiDist) := ptrs in
  ok <- flagset.Parsed;;
  if negb ok then
    flag_Usage >> panic "Failed to parse flags"
  else
    port <- flagset.deref_int localPortFlag;;
    front <- flagset.deref_string frontendServerFlag;;
    api <- flagset.deref_bool startRespApi;;
    ui <- flagset.deref_bool startWebUI;;
    dist <- flagset.deref_string webuiDist;;
    ret {| LocalPort := port; FrontEndServer := front; StartRestApi := api;
           StartWebUI := ui; UIDistPath := dist |}.

(** The process as the Go runtime starts it: [flag.CommandLine] is
    [NewFlagSet(os.Args[0], ExitOnError)]. *)
Definition start (argv : list string) : process :=
  {| CommandLine := flag.NewFlagSet flag.ExitOnError; os_Args := argv; Stderr := [] |}.

Definition result {A} (o : outcome A) : option A :=
  match o with Returned a _ => Some a | _ => None end.

(** The documented defaults of the five flags. *)
Definition defaultConfig : WebConfig :=
  {| LocalPort := 8080; UIDistPath := ""; FrontEndServer := "http://localhost:8001";
     StartRestApi := true; StartWebUI := true |}.

Definition withPort (port : Z) : WebConfig :=
  {| LocalPort := port; UIDistPath := UIDistPath defaultConfig;
     FrontEndServer := FrontEndServer defaultConfig;
     StartRestApi := StartRestApi defaultConfig; StartWebUI := StartWebUI defaultConfig |}.

(** The command-line argument [-port=v]. *)
Definition portArg (v : string) : string := "-port=" ++ v.

(** ** rs/cors: the option record handed to [cors.New] *)

Module cors.

Record Options := mkOptions {
  AllowedOrigins : list string;
  AllowedMethods : list string;
  AllowCredentials : bool
}.

End cors.

(** ** net/http: requests, handlers and what serving a request does *)

Module http.

Definition MethodGet := "GET".
Definition MethodPost := "POST".
Definition MethodPut := "PUT".
Definition MethodDelete := "DELETE".
Definition MethodOptions := "OPTIONS".

Definition StatusMovedPermanently : Z := 301.
Definition StatusNotFound : Z := 404.
Definition StatusMethodNotAllowed : Z := 405.

(** The fields of [*http.Request] that the server reads: [Path] and
    [RawPath] are [r.URL.Path] and [r.URL.RawPath]; [AccessControlRequestMethod]
    is [r.Header.Get("Access-Control-Request-Method")]. *)
Record Request := mkRequest {
  Method : string;
  Path : string;
  RawPath : string;
  RequestURI : string;
  AccessControlRequestMethod : string
}.

Definition withPath (r : Request) (p rp : string) : Request :=
  {| Method := Method r; Path := p; RawPath := rp; RequestURI := RequestURI r;
     AccessControlRequestMethod := AccessControlRequestMethod r |}.

(** Values of the interface [http.Handler] that occur in the server, as
    data: [Logger] is server.go's middleware, [CorsHandler opts] is
    [cors.New(opts).Handler], [HandlerFunc id] is a handler registered by
    restapiweb.SetupRouter, [nil] the nil interface value. *)
Inductive Handler :=
| nil
| FileServer (root : string)
| StripPrefix (prefix : string) (h : Handler)
| Logger (inner : Handler)
| CorsHandler (opts : cors.Options) (h : Handler)
| HandlerFunc (id : nat)
| RedirectHandler (url : string) (code : Z)
| NotFoundHandler
| methodNotAllowedHandler.

Definition is_nil (h : Handler) : bool :=
  match h with nil => true | _ => false end.

End http.

(** ** gorilla/mux: routes, matchers, routers *)

Module mux.
Import http.

(** Route.Match differs between the releases a go.mod can pin: from v1.8.1
    on, a matcher that matches clears an [ErrMethodMismatch] left by an
    earlier route. *)
Class Release := { resetsMismatch : bool }.

Inductive MatchErr := ErrMethodMismatch | ErrNotFound.

#[export] Instance MatchErr_eq_dec : EqDecision MatchErr.
Proof. solve_decision. Defined.

(** [RouteMatch]; its [Route] and [Vars] fields only serve
    [mux.CurrentRoute] and [mux.Vars] and are left out. *)
Record RouteMatch := mkRouteMatch {
  Handler_ : Handler;
  MatchErr_ : option MatchErr
}.

Definition setErr (m : RouteMatch) (e : option MatchErr) : RouteMatch :=
  {| Handler_ := Handler_ m; MatchErr_ := e |}.
Definition setHandler (m : RouteMatch) (h : Handler) : RouteMatch :=
  {| Handler_ := h; MatchErr_ := MatchErr_ m |}.

Definition is_err (m : RouteMatch) (e : MatchErr) : bool :=
  bool_decide (MatchErr_ m = Some e).

(** The interface [matcher]; [isMethodMatcher] is the type test
    [m.(methodMatcher)] of Route.Match. *)
Record matcher := mkMatcher {
  Match : Request -> RouteMatch -> bool * RouteMatch;
  isMethodMatcher : bool
}.

Definition matchInArray (arr : list string) (value : string) : bool :=
  bool_decide (value ∈ arr).

Definition methodMatcher (methods : list string) : matcher :=
  {| Match := fun r m => (matchInArray methods (Method r), m);
     isMethodMatcher := true |}.

(** [MatcherFunc] and the header, host, query and scheme matchers: they
    read the request only. *)
Definition MatcherFunc (f : Request -> bool) : matcher :=
  {| Match := fun r m => (f r, m); isMethodMatcher := false |}.

Inductive regexpType := regexpTypePath | regexpTypePrefix.

(** A compiled path template; [regexp_MatchString] is the compiled
    regular expression. *)
Record routeRegexp := mkRouteRegexp {
  template : string;
  rtype : regexpType;
  rr_strictSlash : bool;
  regexp_MatchString : string -> bool
}.

Definition routeRegexp_matcher (rr : routeRegexp) : matcher :=
  {| Match := fun r m => (regexp_MatchString rr (Path r), m);
     isMethodMatcher := false |}.

(** [newRouteRegexp] for a template without variables: the pattern is
    [^tpl] for a prefix, [^tpl$] for a path and [^tpl'[/]?$] for a path
    under strictSlash, [tpl'] being [tpl] less one trailing slash.
    Only a path keeps the strictSlash option. *)
Definition newRouteRegexp (tpl : string) (typ : regexpType) (strictSlash : bool)
    : routeRegexp :=
  match typ with
  | regexpTypePrefix =>
      mkRouteRegexp tpl typ false (fun p => strings.HasPrefix p tpl)
  | regexpTypePath =>
      let tpl' := if strictSlash && strings.HasSuffixByte tpl "/"
                  then strings.drop_last tpl else tpl in
      mkRouteRegexp tpl typ strictSlash
        (fun p => bool_decide (p = tpl') ||
                  (strictSlash && bool_decide (p = tpl' ++ "/")))
  end.

Record routeConf := mkRouteConf {
  strictSlash : bool;
  skipClean : bool;
  regexp_path : option routeRegexp;
  matchers : list matcher
}.

Record Route := mkRoute {
  conf : routeConf;
  handler : Handler;
  buildOnly : bool;
  err : bool
}.

Record Router := mkRouter {
  NotFoundHandler_ : Handler;
  MethodNotAllowedHandler_ : Handler;
  routes : list Route;
  middlewares : list (Handler -> Handler);
  rconf : routeConf
}.

Section Matching.
Context {release : Release}.

(** How the loop over [r.matchers] in Route.Match ends. *)
Inductive loopEnd :=
| Mismatch (m : RouteMatch)                      (* [return false] inside the loop *)
| Done (m : RouteMatch) (matchErr : option MatchErr).

Fixpoint matchAll (ms : list matcher) (req : Request) (m : RouteMatch)
    (matchErr : option MatchErr) : loopEnd :=
  match ms with
  | [] => Done m matchErr
  | mt :: ms' =>
      let r := Match mt req m in
      if negb r.1 then
        if isMethodMatcher mt
        then matchAll ms' req r.2 (Some ErrMethodMismatch)
        else
          (* Ignore ErrNotFound errors. These errors arise from match
             call to Subrouters. *)
          Mismatch (if is_err r.2 ErrNotFound then setErr r.2 None else r.2)
      else
        matchAll ms' req
          (if resetsMismatch && is_err r.2 ErrMethodMismatch
           then setErr r.2 None else r.2)
          matchErr
  end.

(** [routeRegexpGroup.setMatch]: under strictSlash a path that differs
    from the template in its trailing slash is answered by a redirect. *)
Definition setMatch (r : Route) (req : Request) (m : RouteMatch) : RouteMatch :=
  match regexp_path (conf r) with
  | Some rr =>
      if regexp_MatchString rr (Path req) && rr_strictSlash rr then
        let p1 := strings.HasSuffixByte (Path req) "/" in
        let p2 := strings.HasSuffixByte (template rr) "/" in
        if xorb p1 p2 then
          setHandler m
            (RedirectHandler
               (if p1 then strings.drop_last (Path req) else Path req ++ "/")
               StatusMovedPermanently)
        else m
      else m
  | None => m
  end.

Definition Route_Match (r : Route) (req : Request) (m : RouteMatch)
    : bool * RouteMatch :=
  if buildOnly r || err r then (false, m)
  else
    match matchAll (matchers (conf r)) req m None with
    | Mismatch m => (false, m)
    | Done m (Some e) => (false, setErr m (Some e))
    | Done m None =>
        let m :=
          if is_err m ErrMethodMismatch && negb (is_nil (handler r))
          then
            (* We found a route which matches request method, clear MatchErr *)
            mkRouteMatch (handler r) None
          else m in
        let m := if is_nil (Handler_ m) then setHandler m (handler r) else m in
        (true, setMatch r req m)
    end.

(** The loop over [r.routes] in Router.Match: the first route that
    matches ends it. *)
Fixpoint matchRoutes (rs : list Route) (req : Request) (m : RouteMatch)
    : bool * RouteMatch :=
  match rs with
  | [] => (false, m)
  | route :: rs' =>
      let r := Route_Match route req m in
      if r.1 then r else matchRoutes rs' req r.2
  end.

Definition Router_Match (r : Router) (req : Request) (m : RouteMatch)
    : bool * RouteMatch :=
  let res := matchRoutes (routes r) req m in
  if res.1 then
    (* Build middleware chain if no error was found *)
    (true,
     if bool_decide (MatchErr_ res.2 = None)
     then setHandler res.2 (foldr (fun mw h => mw h) (Handler_ res.2) (middlewares r))
     else res.2)
  else if is_err res.2 ErrMethodMismatch then
    if negb (is_nil (MethodNotAllowedHandler_ r))
    then (true, setHandler res.2 (MethodNotAllowedHandler_ r))
    else (false, res.2)
  else if negb (is_nil (NotFoundHandler_ r))
  then (true, mkRouteMatch (NotFoundHandler_ r) (Some ErrNotFound))
  else (false, setErr res.2 (Some ErrNotFound)).

(** [Route.Subrouter] adds the router itself as a matcher.  The route
    holds a pointer: routes registered on the subrouter afterwards are
    seen through it, so the matcher is formed from the subrouter as it
    stands when the server starts. *)
Definition Router_matcher (r : Router) : matcher :=
  {| Match := Router_Match r; isMethodMatcher := false |}.

End Matching.

(** *** path.Clean and cleanPath *)

Fixpoint split_slash (s cur : string) : list string :=
  match s with
  | EmptyString => [cur]
  | String c s' =>
      if Ascii.eqb c "/" then cur :: split_slash s' EmptyString
      else split_slash s' (cur ++ String c EmptyString)
  end.

(** The elements kept by [path.Clean] on a rooted path, innermost last:
    empty and [.] elements go, [..] removes the element before it and
    goes itself at the root. *)
Definition cleanElements (elems : list string) : list string :=
  fold_left
    (fun (kept : list string) (e : string) =>
       if bool_decide (e = "") || bool_decide (e = ".") then kept
       else if bool_decide (e = "..") then removelast kept
       else (kept ++ [e])%list)
    elems [].

Fixpoint joinRooted (elems : list string) : string :=
  match elems with
  | [] => EmptyString
  | e :: rest => "/" ++ e ++ joinRooted rest
  end.

(** [path.Clean] on a path that starts with a slash. *)
Definition path_Clean (p : string) : string :=
  match cleanElements (split_slash p EmptyString) with
  | [] => "/"
  | elems => joinRooted elems
  end.

Definition cleanPath (p : string) : string :=
  if bool_decide (p = "") then "/"
  else
    let p := if strings.HasPrefix p "/" then p else "/" ++ p in
    let np := path_Clean p in
    (* path.Clean removes trailing slash except for root;
       put the trailing slash back if necessary. *)
    if strings.HasSuffixByte p "/" && negb (bool_decide (np = "/"))
    then np ++ "/" else np.

Section Serving.
Context {release : Release}.

Definition noMatch : RouteMatch := mkRouteMatch nil None.

(** The handler that Router.ServeHTTP ends up calling.  The redirect to
    the clean path is written by ServeHTTP itself; it is the response of
    [RedirectHandler p 301]. *)
Definition Router_handler (r : Router) (req : Request) : Handler :=
  let p := cleanPath (Path req) in
  if negb (skipClean (rconf r)) && negb (bool_decide (p = Path req))
  then RedirectHandler p StatusMovedPermanently
  else
    let res := Router_Match r req noMatch in
    let handler := if res.1 then Handler_ res.2 else nil in
    if is_nil handler && is_err res.2 ErrMethodMismatch
    then methodNotAllowedHandler
    else if is_nil handler then NotFoundHandler
    else handler.

End Serving.

(** *** Building routers *)

Definition NewRouter : Router :=
  {| NotFoundHandler_ := nil; MethodNotAllowedHandler_ := nil; routes := [];
     middlewares := [];
     rconf := mkRouteConf false false None [] |}.

Definition StrictSlash (value : bool) (r : Router) : Router :=
  {| NotFoundHandler_ := NotFoundHandler_ r;
     MethodNotAllowedHandler_ := MethodNotAllowedHandler_ r;
     routes := routes r; middlewares := middlewares r;
     rconf := mkRouteConf value (skipClean (rconf r)) (regexp_path (rconf r))
                (matchers (rconf r)) |}.

Definition Use (mw : Handler -> Handler) (r : Router) : Router :=
  {| NotFoundHandler_ := NotFoundHandler_ r;
     MethodNotAllowedHandler_ := MethodNotAllowedHandler_ r;
     routes := routes r; middlewares := middlewares r ++ [mw];
     rconf := rconf r |}.

(** [Router.NewRoute]: a route with a copy of the router's configuration;
    [addRoute] is the append to [r.routes], done here once the route is
    complete. *)
Definition NewRoute (r : Router) : Route :=
  {| conf := rconf r; handler := nil; buildOnly := false; err := false |}.

Definition addRoute (route : Route) (r : Router) : Router :=
  {| NotFoundHandler_ := NotFoundHandler_ r;
     MethodNotAllowedHandler_ := MethodNotAllowedHandler_ r;
     routes := routes r ++ [route]; middlewares := middlewares r;
     rconf := rconf r |}.

Definition addMatcher (m : matcher) (r : Route) : Route :=
  if err r then r
  else {| conf := mkRouteConf (strictSlash (conf r)) (skipClean (conf r))
                    (regexp_path (conf r)) (matchers (conf r) ++ [m]);
          handler := handler r; buildOnly := buildOnly r; err := err r |}.

Definition Methods (methods : list string) (r : Route) : Route :=
  addMatcher (methodMatcher (map strings.ToUpper methods)) r.

(** [Route.Handler]. *)
Definition Route_Handler (h : http.Handler) (r : Route) : Route :=
  if err r then r
  else {| conf := conf r; handler := h; buildOnly := buildOnly r; err := err r |}.

Definition withError (r : Route) : Route :=
  {| conf := conf r; handler := handler r; buildOnly := buildOnly r; err := true |}.

(** The template a route ends up with: the one it inherited, less its
    trailing slashes, followed by [tpl]. *)
Fixpoint TrimRightSlash (s : string) : string :=
  match s with
  | EmptyString => EmptyString
  | String c s' =>
      match TrimRightSlash s' with
      | EmptyString => if Ascii.eqb c "/" then EmptyString else String c EmptyString
      | t => String c t
      end
  end.

Definition fullTemplate (r : Route) (tpl : string) : string :=
  match regexp_path (conf r) with
  | Some rr => TrimRightSlash (template rr) ++ tpl
  | None => tpl
  end.

(** [Route.addRegexpMatcher] for a compiled template [rr]. *)
Definition addRegexpMatcher (tpl : string) (rr : routeRegexp) (r : Route) : Route :=
  if err r then r
  else if negb (bool_decide (tpl = "")) && negb (strings.HasPrefix tpl "/")
  then withError r               (* mux: path must start with a slash *)
  else
    addMatcher (routeRegexp_matcher rr)
      {| conf := mkRouteConf (strictSlash (conf r)) (skipClean (conf r))
                   (Some rr) (matchers (conf r));
         handler := handler r; buildOnly := buildOnly r; err := err r |}.

(** [Route.PathPrefix] with a template without variables. *)
Definition PathPrefix (tpl : string) (r : Route) : Route :=
  addRegexpMatcher tpl
    (newRouteRegexp (fullTemplate r tpl) regexpTypePrefix (strictSlash (conf r))) r.

(** [Route.Subrouter]: the new router, with a copy of the route's
    configuration.  The route gets the router as matcher ([Router_matcher])
    once the router's routes are registered. *)
Definition Subrouter (r : Route) : Router :=
  {| NotFoundHandler_ := nil; MethodNotAllowedHandler_ := nil; routes := [];
     middlewares := []; rconf := conf r |}.

End mux.

(** ** What the collaborators do

    The file server, the handlers registered under [/api/] and the CORS
    middleware are outside this package.  Each is taken as a function from
    the request to what it does: the effects on the response, the time it
    takes and whether it panics. *)

Record behaviour := mkBehaviour {
  effects : list string;
  elapsed : N;
  panics : bool
}.

Class Collaborators := {
  fileServer : string -> http.Request -> behaviour;      (* http.FileServer(http.Dir(root)) *)
  apiHandler : nat -> http.Request -> behaviour;         (* handlers registered by SetupRouter *)
  handlePreflight : cors.Options -> http.Request -> behaviour;
  handleActualRequest : cors.Options -> http.Request -> behaviour
}.

Inductive event :=
| Effect (e : string)
| WriteHeader (status : Z) (location : string)
| LogPrintf (method uri : string) (since : N)       (* log.Printf("%s %s %s", ...) *)
| PanicServing                                      (* c.serve() recovers the panic of a handler
                                                       and logs "http: panic serving ...",
                                                       but for the value ErrAbortHandler *)
| ListenTCP (addr : string)
| LogFatal (err : string)
| OsExit (code : Z).

(** The monotonic clock and everything written so far. *)
Record World := mkWorld {
  now : N;
  trace : list event
}.

Definition emit (e : event) (w : World) : World :=
  {| now := now w; trace := trace w ++ [e] |}.

Definition perform (b : behaviour) (w : World) : World * bool :=
  ({| now := (now w + elapsed b)%N; trace := trace w ++ map Effect (effects b) |},
   panics b).

Section Handlers.
Import http.
Context {collab : Collaborators}.

(** [h.ServeHTTP(w, r)]; the boolean tells whether the call panicked.
    The case of [Logger] is lines 66-77 of server.go. *)
Fixpoint ServeHTTP (h : Handler) (r : Request) (w : World) : World * bool :=
  match h with
  | nil => (w, true)                     (* nil pointer dereference *)
  | Logger inner =>
      let start := now w in
      let res := ServeHTTP inner r w in
      if res.2 then res
      else (emit (LogPrintf (Method r) (RequestURI r) (now res.1 - start)%N) res.1, false)
  | StripPrefix prefix h =>
      if bool_decide (prefix = "") then ServeHTTP h r w
      else
        let p := strings.TrimPrefix (Path r) prefix in
        let rp := strings.TrimPrefix (RawPath r) prefix in
        if (strings.len p <? strings.len (Path r)) &&
           (bool_decide (RawPath r = "") || (strings.len rp <? strings.len (RawPath r)))
        then ServeHTTP h (withPath r p rp) w
        else (emit (WriteHeader StatusNotFound "") w, false)
  | FileServer root => perform (fileServer root r) w
  | CorsHandler opts h =>
      if bool_decide (Method r = MethodOptions) &&
         negb (bool_decide (AccessControlRequestMethod r = ""))
      then
        (* Preflight requests are standalone and should stop the chain *)
        perform (handlePreflight opts r) w
      else
        let res := perform (handleActualRequest opts r) w in
        if res.2 then res else ServeHTTP h r res.1
  | HandlerFunc id => perform (apiHandler id r) w
  | RedirectHandler url code => (emit (WriteHeader code url) w, false)
  | NotFoundHandler => (emit (WriteHeader StatusNotFound "") w, false)
  | methodNotAllowedHandler => (emit (WriteHeader StatusMethodNotAllowed "") w, false)
  end.

End Handlers.

(** ** net/http: one goroutine per connection

    The handlers of different connections run interleaved, so a call of
    ServeHTTP is also given step by step: [code h r] lists what
    [h.ServeHTTP(w, r)] does, in order, and [step] does the first of them.
    [ServeHTTP_code] below shows that the steps of one call, taken
    without interruption, are the call as [ServeHTTP] gives it. *)

Inductive instr :=
| Do (b : behaviour)                 (* a collaborator runs *)
| Say (e : event)                    (* the router or net/http writes *)
| Crash                              (* a call through a nil handler *)
| Clock                              (* Logger: [start := time.Now()] *)
| Printf (method uri : string).      (* Logger: [log.Printf(..., time.Since(start))] *)

Section Goroutines.
Import http.
Context {collab : Collaborators}.

Fixpoint code (h : Handler) (r : Request) : list instr :=
  match h with
  | nil => [Crash]
  | Logger inner => (Clock :: code inner r ++ [Printf (Method r) (RequestURI r)])%list
  | StripPrefix prefix h =>
      if bool_decide (prefix = "") then code h r
      else
        let p := strings.TrimPrefix (Path r) prefix in
        let rp := strings.TrimPrefix (RawPath r) prefix in
        if (strings.len p <? strings.len (Path r)) &&
           (bool_decide (RawPath r = "") || (strings.len rp <? strings.len (RawPath r)))
        then code h (withPath r p rp)
        else [Say (WriteHeader StatusNotFound "")]
  | FileServer root => [Do (fileServer root r)]
  | CorsHandler opts h =>
      if bool_decide (Method r = MethodOptions) &&
         negb (bool_decide (AccessControlRequestMethod r = ""))
      then [Do (handlePreflight opts r)]
      else Do (handleActualRequest opts r) :: code h r
  | HandlerFunc id => [Do (apiHandler id r)]
  | RedirectHandler url code => [Say (WriteHeader code url)]
  | NotFoundHandler => [Say (WriteHeader StatusNotFound "")]
  | methodNotAllowedHandler => [Say (WriteHeader StatusMethodNotAllowed "")]
  end.

End Goroutines.

(** A goroutine: what it still has to do, and the [start] values of the
    calls of Logger it is in. *)
Record goroutine := mkGoroutine {
  todo : list instr;
  starts : list N
}.

(** After a panic nothing of the handler is left to do: [c.serve()]
    recovers, logs and closes the connection. *)
Definition recovered : list instr := [Say PanicServing].

Definition step (g : goroutine) (w : World) : goroutine * World :=
  match todo g with
  | [] => (g, w)
  | Do b :: rest =>
      (mkGoroutine (if panics b then recovered else rest) (starts g), (perform b w).1)
  | Say e :: rest => (mkGoroutine rest (starts g), emit e w)
  | Crash :: _ => (mkGoroutine recovered (starts g), w)
  | Clock :: rest => (mkGoroutine rest (now w :: starts g), w)
  | Printf m u :: rest =>
      match starts g with
      | s :: ss => (mkGoroutine rest ss, emit (LogPrintf m u (now w - s)%N) w)
      | [] => (mkGoroutine rest [], w)
      end
  end.

(** The goroutines take their steps in the order the scheduler picks them. *)
Fixpoint runSchedule (sched : list nat) (pool : list goroutine) (w : World)
    : list goroutine * World :=
  match sched with
  | [] => (pool, w)
  | i :: sched' =>
      match pool !! i with
      | Some g =>
          let res := step g w in
          runSchedule sched' (<[i := res.1]> pool) res.2
      | None => runSchedule sched' pool w
      end
  end.

(** [n] steps of one goroutine without interruption. *)
Fixpoint runAlone (n : nat) (g : goroutine) (w : World) : goroutine * World :=
  match n with
  | O => (g, w)
  | S n' => let res := step g w in runAlone n' res.1 res.2
  end.

(** ** The routes registered by restapiweb.SetupRouter

    SetupRouter is not part of this file.  It is taken as the list of routes
    it registers on the subrouter it is given, each one a chain of route
    calls ended by [Handler]. *)

Inductive routeOp :=
| OpMethods (methods : list string)
| OpPath (tpl : string) (re : string -> bool)          (* Path(tpl), compiled to [re] *)
| OpPathPrefix (tpl : string) (re : string -> bool)
| OpMatcherFunc (f : http.Request -> bool).            (* Headers, Queries, Host, ... *)

Record registration := mkRegistration {
  ops : list routeOp;
  handlerId : nat
}.

Definition applyOp (r : mux.Route) (op : routeOp) : mux.Route :=
  match op with
  | OpMethods ms => mux.Methods ms r
  | OpPath tpl re =>
      mux.addRegexpMatcher tpl
        (mux.mkRouteRegexp (mux.fullTemplate r tpl) mux.regexpTypePath
           (mux.strictSlash (mux.conf r)) re) r
  | OpPathPrefix tpl re =>
      mux.addRegexpMatcher tpl
        (mux.mkRouteRegexp (mux.fullTemplate r tpl) mux.regexpTypePrefix false re) r
  | OpMatcherFunc f => mux.addMatcher (mux.MatcherFunc f) r
  end.

Definition register (r : mux.Router) (reg : registration) : mux.Router :=
  mux.addRoute
    (mux.Route_Handler (http.HandlerFunc (handlerId reg)) (fold_left applyOp (ops reg) (mux.NewRoute r)))
    r.

Definition SetupRouter (router : mux.Router) (api : list registration) : mux.Router :=
  fold_left register api router.

(** ** Serve (server.go, lines 87-113) *)

Definition uiMethods : list string := ["GET"].
Definition apiMethods : list string := ["GET"; "POST"; "DELETE"; "OPTIONS"].

(** The options of [serverConfig.Cors] (lines 93-96). *)
Definition corsOptions (c : WebConfig) : cors.Options :=
  {| cors.AllowedOrigins := [FrontEndServer c];
     cors.AllowedMethods := [http.MethodGet; http.MethodPost; http.MethodOptions;
                             http.MethodDelete; http.MethodPut];
     cors.AllowCredentials := true |}.

(** [rBase] after lines 98-99. *)
Definition rBase0 : mux.Router :=
  mux.Use http.Logger (mux.StrictSlash true mux.NewRouter).

(** The route [rBase.Methods(...).PathPrefix(prefix)] of lines 102 and 107,
    before [Subrouter()] makes the subrouter its last matcher. *)
Definition branchRoute (methods : list string) (prefix : string) : mux.Route :=
  mux.PathPrefix prefix (mux.Methods methods (mux.NewRoute rBase0)).

Definition uiHandler (c : WebConfig) : http.Handler :=
  http.StripPrefix "/ui/" (http.FileServer (UIDistPath c)).

(** [rUi] with the route of line 103. *)
Definition rUi (c : WebConfig) : mux.Router :=
  let r := mux.Subrouter (branchRoute uiMethods "/ui/") in
  mux.addRoute (mux.Route_Handler (uiHandler c) (mux.Methods uiMethods (mux.NewRoute r))) r.

(** [rApi] with the CORS middleware of line 108 and the routes that
    SetupRouter registers in line 109. *)
Definition rApi (c : WebConfig) (api : list registration) : mux.Router :=
  let r := mux.Subrouter (branchRoute apiMethods "/api/") in
  SetupRouter (mux.Use (http.CorsHandler (corsOptions c)) r) api.

Section Serve.
Context {release : mux.Release}.

Definition uiRoute (c : WebConfig) : mux.Route :=
  mux.addMatcher (mux.Router_matcher (rUi c)) (branchRoute uiMethods "/ui/").

Definition apiRoute (c : WebConfig) (api : list registration) : mux.Route :=
  mux.addMatcher (mux.Router_matcher (rApi c api)) (branchRoute apiMethods "/api/").

(** [rBase] as it is handed to ListenAndServe (lines 98-110). *)
Definition rBase (c : WebConfig) (api : list registration) : mux.Router :=
  let rBase := rBase0 in
  let rBase := if StartWebUI c then mux.addRoute (uiRoute c) rBase else rBase in
  if StartRestApi c then mux.addRoute (apiRoute c api) rBase else rBase.

Context {collab : Collaborators}.

(** [rBase.ServeHTTP(w, r)]. *)
Definition serveRequest (c : WebConfig) (api : list registration)
    (r : http.Request) (w : World) : World * bool :=
  ServeHTTP (mux.Router_handler (rBase c api) r) r w.

(** [rBase.ServeHTTP(w, r)] as the code of the goroutine that serves [r]. *)
Definition serveCode (c : WebConfig) (api : list registration) (r : http.Request)
    : list instr :=
  code (mux.Router_handler (rBase c api) r) r.

(** What the network does to [http.ListenAndServe]: the listener cannot
    be bound, or connections are accepted, each with the requests sent on
    it, until Accept fails.  [Server.Serve] runs [go c.serve()] for every
    connection, and the runtime decides which goroutine takes the next
    step: [schedule] while ListenAndServe is serving, [lastSteps] between
    the output of log.Fatal and the end of the process.  ListenAndServe
    always returns a non-nil error. *)
Record Network := mkNetwork {
  bindError : option string;
  arrivals : list (list http.Request);
  schedule : list nat;
  lastSteps : list nat;
  acceptError : string
}.

(** The goroutine of a connection: [c.serve()] calls the handler for one
    request after the other. *)
Definition conn (handler : http.Request -> list instr) (requests : list http.Request)
    : goroutine :=
  {| todo := concat (map handler requests); starts := [] |}.

(** ListenAndServe returns the error; the goroutines it started go on. *)
Definition ListenAndServe (addr : string) (handler : http.Request -> list instr)
    (net : Network) (w : World) : list goroutine * World * string :=
  let w := emit (ListenTCP addr) w in
  match bindError net with
  | Some e => ([], w, e)
  | None =>
      (runSchedule (schedule net) (map (conn handler) (arrivals net)) w, acceptError net)
  end.

(** [log.Fatal(v)]: Print followed by [os.Exit(1)]; [others] is what the
    other goroutines do in between. *)
Definition log_Fatal (v : string) (others : World -> World) (w : World) : World :=
  emit (OsExit 1) (others (emit (LogFatal v) w)).

Definition Serve (c : WebConfig) (api : list registration) (net : Network)
    (w : World) : World :=
  let res := ListenAndServe (":" ++ strconv.Itoa (LocalPort c)) (serveCode c api) net w in
  log_Fatal res.2 (fun w => (runSchedule (lastSteps net) res.1.1 w).2) res.1.2.

(** [c.serve()] when no other goroutine runs: the requests of the
    connection one after the other; a panic of the handler is recovered,
    logged, and ends the connection. *)
Fixpoint conn_serve (serve : http.Request -> World -> World * bool)
    (requests : list http.Request) (w : World) : World :=
  match requests with
  | [] => w
  | r :: rest =>
      let res := serve r w in
      if res.2 then emit PanicServing res.1 else conn_serve serve rest res.1
  end.

End Serve.

(** The log lines written by Logger. *)
Definition logLines (t : list event) : list (string * string * N) :=
  omap (fun e => match e with LogPrintf m u d => Some (m, u, d) | _ => None end) t.

Definition statusOf (h : http.Handler) : option Z :=
  match h with
  | http.RedirectHandler _ code => Some code
  | http.NotFoundHandler => Some http.StatusNotFound
  | http.methodNotAllowedHandler => Some http.StatusMethodNotAllowed
  | _ => None
  end.

(** Both releases of the router's matching loop. *)
Definition mux_v1_8_0 : mux.Release := {| mux.resetsMismatch := false |}.
Definition mux_v1_8_1 : mux.Release := {| mux.resetsMismatch := true |}.

(** Collaborators that do nothing, for running examples. *)
Definition idle : Collaborators :=
  {| fileServer := fun _ _ => mkBehaviour [] 0 false;
     apiHandler := fun _ _ => mkBehaviour [] 0 false;
     handlePreflight := fun _ _ => mkBehaviour [] 0 false;
     handleActualRequest := fun _ _ => mkBehaviour [] 0 false |}.

Definition request (method path : string) : http.Request :=
  {| http.Method := method; http.Path := path; http.RawPath := "";
     http.RequestURI := path; http.AccessControlRequestMethod := "" |}.

(** * Notions used by the statements *)

Import http mux flag.

(** ** ParseArgs *)

(** The type of a flag's variable; [Value.Set] never changes it. *)
Inductive kind := KInt | KString | KBool.

Definition kind_of (v : Value) : kind :=
  match v with
  | intValue _ => KInt
  | stringValue _ => KString
  | boolValue _ => KBool
  end.

Definition kinds (f : FlagSet) : gmap string kind :=
  (fun fl => kind_of (Val fl)) <$> formal f.

(** The flags ParseArgs declares, by type. *)
Definition declared : gmap string kind :=
  <["webui_path" := KString]> (<["start_webui" := KBool]> (<["start_restapi" := KBool]>
    (<["front_address" := KString]> (<["port" := KInt]> ∅)))).

(** The state of the process while [flag.Parse()] runs. *)
Record ready (p : process) : Prop := {
  ready_parsed : parsed (CommandLine p) = true;
  ready_exit : errorHandling (CommandLine p) = ExitOnError;
  ready_kinds : kinds (CommandLine p) = declared
}.

(** What one call of parseOne guarantees from a ready state with [n]
    arguments left. *)
Definition steps (n : nat) (o : outcome (bool * option error)) : Prop :=
  exists r p', o = Returned r p' /\ ready p' /\
    (r.1 = true -> length (args (CommandLine p')) < n)%nat.

(** The flag set once the five flags are declared. *)
Definition declaredFlags : gmap string Flag :=
  <["webui_path" := mkFlag "webui_path"
      "Points to a static web ui dist path with the built version of ADK Web UI"
      (stringValue "") ""]>
  (<["start_webui" := mkFlag "start_webui" "Set to start a web ui endpoint '/ui'"
      (boolValue true) "true"]>
  (<["start_restapi" := mkFlag "start_restapi" "Set to start a rest api endpoint '/api'"
      (boolValue true) "true"]>
  (<["front_address" := mkFlag "front_address" "Front address to allow CORS requests from"
      (stringValue "http://localhost:8001") "http://localhost:8001"]>
  (<["port" := mkFlag "port" "Port to listen on" (intValue 8080) "8080"]> ∅)))).

(** The process when [flag.Parse()] enters its loop. *)
Definition parsing (argv : list string) : process :=
  {| CommandLine := mkFlagSet true ∅ declaredFlags argv ExitOnError;
     os_Args := argv; Stderr := [] |}.

Definition pointers : string * string * string * string * string :=
  ("port", "front_address", "start_restapi", "start_webui", "webui_path").

(** ** Routing *)

Inductive branch := WebUI | RestApi.

Definition enabled (c : WebConfig) (b : branch) : bool :=
  match b with WebUI => StartWebUI c | RestApi => StartRestApi c end.

Definition prefixOf (b : branch) : string :=
  match b with WebUI => "/ui/" | RestApi => "/api/" end.

Definition methodsOf (b : branch) : list string :=
  match b with WebUI => uiMethods | RestApi => apiMethods end.

(** The handlers a branch hands a request to, under the Logger. *)
Definition servedBy (b : branch) (h : Handler) : Prop :=
  match b with
  | WebUI => exists root, h = Logger (StripPrefix "/ui/" (FileServer root))
  | RestApi => exists opts h', h = Logger (CorsHandler opts h')
  end.

(** A request is routed when rBase found a route for it, whose handler
    then runs inside the Logger. *)
Definition routed (h : Handler) : bool :=
  match h with Logger _ => true | _ => false end.

Fixpoint loggerFree (h : Handler) : bool :=
  match h with
  | Logger _ => false
  | StripPrefix _ h | CorsHandler _ h => loggerFree h
  | _ => true
  end.

(** The handlers a registered route can answer with: its own, or the
    redirect of strictSlash. *)
Definition leaf (h : Handler) : Prop :=
  (exists id, h = HandlerFunc id) \/ (exists u, h = RedirectHandler u StatusMovedPermanently).

(** A RouteMatch as the routes of rBase find it: no handler yet and no
    ErrNotFound. *)
Definition tidy (m : RouteMatch) : Prop :=
  Handler_ m = nil /\ MatchErr_ m <> Some ErrNotFound.

(** A matcher that leaves the RouteMatch as it is. *)
Definition simple (mt : matcher) : Prop := forall req m, (Match mt req m).2 = m.

Definition below (m' m : RouteMatch) : Prop :=
  Handler_ m' = Handler_ m /\ (MatchErr_ m' = MatchErr_ m \/ MatchErr_ m' = None).

(** [rApi] before SetupRouter, and the route a registration becomes. *)
Definition rApi0 (c : WebConfig) : Router :=
  Use (CorsHandler (corsOptions c)) (Subrouter (branchRoute apiMethods "/api/")).

Definition registered (c : WebConfig) (reg : registration) : Route :=
  Route_Handler (HandlerFunc (handlerId reg)) (fold_left applyOp (ops reg) (NewRoute (rApi0 c))).

Definition prefixMatcher (prefix : string) : matcher :=
  routeRegexp_matcher (newRouteRegexp prefix regexpTypePrefix true).

Definition apiBase : list matcher := [methodMatcher apiMethods; prefixMatcher "/api/"].

Definition apiConf : routeConf :=
  mkRouteConf true false (Some (newRouteRegexp "/api/" regexpTypePrefix true)) apiBase.

(** A route under construction on the API subrouter: it keeps the method
    and prefix matchers it inherited, whatever is added. *)
Record built (r : Route) : Prop := {
  built_only : buildOnly r = false;
  built_matchers : exists tail, matchers (conf r) = (apiBase ++ tail)%list /\ Forall simple tail
}.

Section Responses.
Context {release : Release}.

Definition clearMM (m : RouteMatch) : RouteMatch :=
  if resetsMismatch && is_err m ErrMethodMismatch then setErr m None else m.

Definition clearNF (m : RouteMatch) : RouteMatch :=
  if is_err m ErrNotFound then setErr m None else m.

(** The answer of rBase to a canonical path under [/api/], given what the
    API subrouter found. *)
Definition apiResponse (res : bool * RouteMatch) : Handler :=
  if res.1 then Logger (Handler_ res.2)
  else if is_err res.2 ErrMethodMismatch then methodNotAllowedHandler
  else NotFoundHandler.

(** The answer of rBase to a canonical path under [/ui/]. *)
Definition uiResponse (c : WebConfig) (req : Request) : Handler :=
  if matchInArray uiMethods (Method req) then Logger (uiHandler c)
  else if resetsMismatch && StartRestApi c && matchInArray apiMethods (Method req)
  then NotFoundHandler
  else methodNotAllowedHandler.

End Responses.

(** ** Serving *)

(** Events a request can cause, as opposed to those of the process. *)
Definition requestEvent (e : event) : bool :=
  match e with
  | Effect _ | WriteHeader _ _ | LogPrintf _ _ _ | PanicServing => true
  | _ => false
  end.

(** [res] is [w] with events [t] appended, [P t], and the clock not set back. *)
Definition appends (P : list event -> Prop) (w : World) (res : World * bool) : Prop :=
  exists t, trace res.1 = (trace w ++ t)%list /\ P t /\ (now w <= now res.1)%N.

Definition silent (t : list event) : Prop :=
  logLines t = [] /\ Forall (fun e => requestEvent e = true) t.

(** The error ListenAndServe returns. *)
Definition listenError (net : Network) : string :=
  match bindError net with Some e => e | None => acceptError net end.

(** ** Examples *)

(** Two routes as restapiweb registers them: methods, then an exact path. *)
Definition sampleApi : list registration :=
  [ mkRegistration
      [OpMethods ["GET"];
       OpPath "/list-apps"
         (regexp_MatchString (newRouteRegexp "/api/list-apps" regexpTypePath true))] 0;
    mkRegistration
      [OpMethods ["POST"];
       OpPath "/run"
         (regexp_MatchString (newRouteRegexp "/api/run" regexpTypePath true))] 1 ].

Definition uiDisabled : WebConfig :=
  {| LocalPort := 8080; UIDistPath := "/assets"; FrontEndServer := "http://localhost:8001";
     StartRestApi := true; StartWebUI := false |}.

Definition epoch : World := {| now := 0; trace := [] |}.

(** ** Notions used by the further properties *)

(** An argument that ends flag parsing where it stands: shorter than two
    bytes, or not starting with a dash. *)
Definition positional (s : string) : bool :=
  match s with
  | String c0 (String _ _) => negb (Ascii.eqb c0 "-")
  | _ => true
  end.

Fixpoint noSlash (s : string) : bool :=
  match s with
  | EmptyString => true
  | String c s' => negb (Ascii.eqb c "/") && noSlash s'
  end.

(** A path element that path.Clean keeps. *)
Definition element (e : string) : Prop :=
  noSlash e = true /\ e <> "" /\ e <> "." /\ e <> "..".

(** What parseOne leaves on standard error: nothing when it reports no
    error, the usage text last when it reports one. *)
Definition reported (r : bool * option error) (p : process) : Prop :=
  match r.2 with
  | None => Stderr p = []
  | Some _ => r.1 = false /\ last (Stderr p) = Some "Usage:"
  end.


(** ** Notions for the goroutines *)

(** The schedule that lets each goroutine of [pool], from index [i] on,
    run to its end before the next one starts. *)
Fixpoint oneByOne (i : nat) (pool : list goroutine) : list nat :=
  match pool with
  | [] => []
  | g :: rest => (replicate (S (length (todo g))) i ++ oneByOne (S i) rest)%list
  end.

(** What the code of a handler writes by itself: headers, and the line of
    the recovery. *)
Definition handlerSays (i : instr) : bool :=
  match i with
  | Say (WriteHeader _ _) | Say PanicServing => true
  | Say _ => false
  | _ => true
  end.

(** The log lines a goroutine may still write, and those written, as
    pairs of method and URI. *)
Definition pending (l : list instr) : list (string * string) :=
  omap (fun i => match i with Printf m u => Some (m, u) | _ => None end) l.

Definition pendingPool (pool : list goroutine) : list (string * string) :=
  concat (map (fun g => pending (todo g)) pool).

Definition logPairs (t : list event) : list (string * string) :=
  (fun l : string * string * N => (l.1.1, l.1.2)) <$> logLines t.

(** What a run of the scheduler keeps true, from [(pool, w)] to [res]. *)
Definition scheduled (pool : list goroutine) (w : World)
    (res : list goroutine * World) : Prop :=
  Forall (fun g => Forall (fun i => handlerSays i = true) (todo g)) res.1 /\
  (exists t, trace res.2 = (trace w ++ t)%list /\
             Forall (fun e => requestEvent e = true) t) /\
  (logPairs (trace res.2) ++ pendingPool res.1)%list ⊆+
  (logPairs (trace w) ++ pendingPool pool)%list.

Section Networks.
Context {release : Release} {collab : Collaborators}.

(** A network on which the connections [conns] are served one after the
    other, each to its end, before Accept fails with [err]. *)
Definition unhurried (c : WebConfig) (api : list registration)
    (conns : list (list Request)) (err : string) : Network :=
  {| bindError := None; arrivals := conns;
     schedule := oneByOne 0 (map (conn (serveCode c api)) conns);
     lastSteps := []; acceptError := err |}.

End Networks.

Section Routed.
Context {release : Release}.

(** Method and URI of the requests that rBase finds a route for. *)
Definition routedPairs (c : WebConfig) (api : list registration)
    (requests : list Request) : list (string * string) :=
  omap (fun r => if routed (Router_handler (rBase c api) r)
                 then Some (Method r, RequestURI r) else None) requests.

End Routed.

(** ** Notions for trailing slashes *)





(** * Strings *)

Lemma append_cons c s t : (String c s ++ t)%string = String c (s ++ t).
Proof. reflexivity. Qed.

Lemma append_nil t : ("" ++ t)%string = t.
Proof. reflexivity. Qed.

Ltac spell := rewrite ?append_cons, ?append_nil.

Lemma string_app_assoc (a b c : string) : ((a ++ b) ++ c)%string = (a ++ (b ++ c))%string.
Proof. induction a as [|x a IH]; [reflexivity|]. rewrite !append_cons. f_equal. exact IH. Qed.

Lemma string_app_nil_r (a : string) : (a ++ "")%string = a.
Proof. induction a as [|x a IH]; [reflexivity|]. rewrite append_cons. f_equal. exact IH. Qed.


Lemma last_byte_some c s : exists d, strings.last_byte (String c s) = Some d.
Proof.
  revert c. induction s as [|y s IH]; intros c; [exists c; reflexivity|].
  destruct (IH y) as (d & E). exists d. exact E.
Qed.

Lemma last_byte_cons c s :
  strings.last_byte (String c s) =
  match strings.last_byte s with Some d => Some d | None => Some c end.
Proof.
  destruct s as [|y s]; [reflexivity|].
  destruct (last_byte_some y s) as (d & E). rewrite E. exact E.
Qed.

Lemma last_byte_app a b :
  strings.last_byte (a ++ b) =
  match strings.last_byte b with Some c => Some c | None => strings.last_byte a end.
Proof.
  induction a as [|x a IH].
  - rewrite append_nil. destruct (strings.last_byte b); reflexivity.
  - rewrite append_cons, !last_byte_cons, IH.
    destruct (strings.last_byte b); reflexivity.
Qed.


(** * ParseArgs: what the flag package does with the command line *)

Lemma Value_Set_kind v s : kind_of (Value_Set v s).1 = kind_of v.
Proof.
  destruct v; simpl; auto.
  - destruct (strconv.ParseInt s 0 strconv.IntSize); reflexivity.
  - destruct (strconv.ParseBool s); reflexivity.
Qed.

Lemma kinds_setValue (m : gmap string Flag) name fl v :
  m !! name = Some fl -> kind_of v = kind_of (Val fl) ->
  (fun fl => kind_of (Val fl)) <$> <[name := mkFlag (Name fl) (Usage fl) v (DefValue fl)]> m
  = (fun fl => kind_of (Val fl)) <$> m.
Proof.
  intros Hl Hk. rewrite fmap_insert. simpl. rewrite Hk.
  apply insert_id. rewrite lookup_fmap, Hl. reflexivity.
Qed.

Ltac unfold_M := unfold flagset.setArgs, flagset.setValue, flagset.markActual, flagset.failf,
  flagset.usage, eprint, bind, getFlags, putFlags, ret, panic, os_Exit in *.

Ltac leaf_step :=
  eexists _, _; split; [reflexivity|]; split;
  [ split; simpl; auto | simpl; intros; try discriminate; try lia ].

Lemma setFlag_ready name fl value rest f argv err :
  parsed f = true -> errorHandling f = ExitOnError -> kinds f = declared ->
  formal f !! name = Some fl ->
  steps (S (length rest))
    (flagset.setFlag name fl value rest
       (mkProcess (mkFlagSet (parsed f) (actual f) (formal f) rest (errorHandling f)) argv err)).
Proof.
  intros Hp He Hk Hl. unfold steps, flagset.setFlag.
  pose proof (kinds_setValue (formal f) name fl) as HK. unfold kinds in Hk.
  destruct (IsBoolFlag (Val fl)).
  - pose proof (Value_Set_kind (Val fl) (default "true" value)) as Hv.
    destruct (Value_Set (Val fl) (default "true" value)) as [v [e|]]; unfold_M; simpl in *;
      leaf_step; unfold kinds; simpl; rewrite HK; auto.
  - destruct value as [value|]; [| destruct rest as [|value rest']].
    + pose proof (Value_Set_kind (Val fl) value) as Hv.
      destruct (Value_Set (Val fl) value) as [v [e|]]; unfold_M; simpl in *;
        leaf_step; unfold kinds; simpl; rewrite HK; auto.
    + unfold_M. leaf_step.
    + pose proof (Value_Set_kind (Val fl) value) as Hv.
      destruct (Value_Set (Val fl) value) as [v [e|]]; unfold_M; simpl in *;
        leaf_step; unfold kinds; simpl; rewrite HK; auto.
Qed.

Lemma parseOne_ready p :
  ready p -> steps (length (args (CommandLine p))) (flagset.parseOne p).
Proof.
  intros [Hp He Hk]. destruct p as [f argv err]. simpl in *.
  unfold flagset.parseOne, bind at 1, getFlags. simpl.
  destruct (args f) as [|s rest] eqn:Ha; [unfold steps; leaf_step|].
  destruct s as [|c0 [|c1 tail]]; try (unfold steps; leaf_step).
  destruct (negb (Ascii.eqb c0 "-")); [unfold steps; leaf_step|].
  destruct (Ascii.eqb c1 "-" && bool_decide (tail = "")); [unfold steps; unfold_M; leaf_step|].
  destruct (flagset.bad_syntax _); [unfold steps; unfold_M; leaf_step|].
  unfold bind at 1, flagset.setArgs at 1, bind at 1, getFlags, putFlags. simpl.
  destruct (formal f !! _) as [fl|] eqn:Hl.
  - eapply setFlag_ready; eauto.
  - destruct (_ || _); unfold steps; unfold_M; leaf_step.
Qed.


Lemma ParseArgs_split p : ParseArgs p = bind ParseArgs_flags ParseArgs_config p.
Proof.
  unfold ParseArgs, ParseArgs_flags, ParseArgs_config, bind.
  repeat match goal with
         | |- context [match ?m p with Returned _ _ => _ | Exited _ _ => _ | Panicked _ _ => _ end] =>
             destruct (m p); try reflexivity
         | |- context [match ?m ?q with Returned _ _ => _ | Exited _ _ => _ | Panicked _ _ => _ end] =>
             destruct (m q); try reflexivity
         end.
Qed.

Ltac map_step :=
  first [ rewrite lookup_empty | rewrite lookup_insert_eq
        | rewrite lookup_insert_ne by discriminate ].
Ltac run := repeat (simpl; try map_step).

Ltac unfold_flags :=
  unfold ParseArgs, ParseArgs_flags, start, flag_Parse, flagset.Parse, flagset.Int,
    flagset.String_, flagset.Bool, flagset.Var, bind, getFlags, putFlags, ret.

Ltac unfold_parse :=
  unfold flagset.parseOne, flagset.setFlag, flagset.setArgs, flagset.setValue,
    flagset.markActual, flagset.failf, eprint, flagset.usage, bind, getFlags, putFlags, ret.

Ltac unfold_config :=
  unfold flagset.Parsed, flagset.deref_int, flagset.deref_string, flagset.deref_bool,
    bind, getFlags, ret.

Lemma parsing_ready argv : ready (parsing argv).
Proof.
  split; reflexivity.
Qed.

Lemma ParseArgs_flags_eq argv :
  ParseArgs_flags (start argv) =
  match flagset.parseLoop (length argv) (parsing argv) with
  | Returned _ p' => Returned pointers p'
  | Exited code p' => Exited code p'
  | Panicked msg p' => Panicked msg p'
  end.
Proof.
  unfold_flags.
  run. change (mkProcess _ argv []) with (parsing argv).
  destruct (flagset.parseLoop _ _); reflexivity.
Qed.

Lemma ready_lookup p name k :
  ready p -> declared !! name = Some k ->
  exists fl, formal (CommandLine p) !! name = Some fl /\ kind_of (Val fl) = k.
Proof.
  intros Hr Hd. rewrite <- (ready_kinds _ Hr) in Hd. unfold kinds in Hd.
  rewrite lookup_fmap in Hd. destruct (formal (CommandLine p) !! name) as [fl|]; [|discriminate].
  exists fl. split; [reflexivity|]. simpl in Hd. congruence.
Qed.

Ltac deref Hr name k :=
  let fl := fresh "fl" in let K := fresh "K" in
  destruct (ready_lookup _ name k Hr eq_refl) as (fl & -> & K); simpl;
  destruct (Val fl); try discriminate K; clear K; simpl.

Lemma ParseArgs_config_ready p :
  ready p -> exists c, ParseArgs_config pointers p = Returned c p.
Proof.
  intros Hr. unfold ParseArgs_config, pointers, flagset.Parsed, bind, getFlags, ret.
  rewrite (ready_parsed _ Hr). simpl.
  unfold flagset.deref_int, flagset.deref_string, flagset.deref_bool, bind, getFlags, ret.
  deref Hr "port" KInt. deref Hr "front_address" KString. deref Hr "start_restapi" KBool.
  deref Hr "start_webui" KBool. deref Hr "webui_path" KString.
  eexists; reflexivity.
Qed.

Lemma portArg_eq v :
  portArg v = String "-" (String "p" (String "o" (String "r" (String "t" (String "=" v))))).
Proof. reflexivity. Qed.

(** [-port=v]: the value goes through strconv.ParseInt and nothing else. *)
Lemma ParseArgs_port_value v :
  match strconv.ParseInt v 0 strconv.IntSize with
  | (z, None) => result (ParseArgs (start [portArg v])) = Some (withPort z)
  | (_, Some _) => exists p', ParseArgs (start [portArg v]) = Exited 2 p'
  end.
Proof.
  rewrite portArg_eq.
  destruct (strconv.ParseInt v 0 strconv.IntSize) as [z [e|]] eqn:E.
  - eexists. unfold_flags. run. unfold_parse. run.
    rewrite E. run. destruct e; reflexivity.
  - unfold_flags. run. unfold_parse. run.
    rewrite E. run. unfold_config. run. reflexivity.
Qed.

(** * strconv: the decimal text of a port *)

Section Decimal.
Import strconv.

Lemma digit_cases d : 0 <= d <= 9 ->
  d = 0 \/ d = 1 \/ d = 2 \/ d = 3 \/ d = 4 \/ d = 5 \/ d = 6 \/ d = 7 \/ d = 8 \/ d = 9.
Proof. lia. Qed.

Ltac each_digit H :=
  destruct (digit_cases _ H) as [->|[->|[->|[->|[->|[->|[->|[->|[->| ->]]]]]]]]].

Lemma parse_digit base0 cutoff maxVal d s n us :
  0 <= d <= 9 -> 0 <= n -> n < cutoff -> n * 10 + d <= maxVal -> maxVal < 2 ^ 64 ->
  parse_digits base0 10 cutoff maxVal (String (digit d) s) n us =
  parse_digits base0 10 cutoff maxVal s (n * 10 + d) us.
Proof.
  intros Hd Hn Hc Hm Hmax.
  assert (E : (Ascii.eqb (digit d) "_" = false) /\ is_digit (digit d) = true /\ byte (digit d) - 48 = d).
  { each_digit Hd; repeat split; reflexivity. }
  destruct E as (E1 & E2 & E3).
  cbn [parse_digits]. rewrite E1, E2, E3. simpl andb. cbv iota.
  replace (10 <=? d) with false by lia.
  replace (cutoff <=? n) with false by lia.
  rewrite (Z.mod_small (n * 10)) by lia. rewrite (Z.mod_small (n * 10 + d)) by lia.
  replace (n * 10 + d <? n * 10) with false by lia.
  replace (maxVal <? n * 10 + d) with false by lia.
  reflexivity.
Qed.

Lemma parse_formatBits base0 cutoff maxVal rounds : forall u a us,
  0 <= u -> u < 10 ^ Z.of_nat rounds -> u <= maxVal -> maxVal < 2 ^ 64 -> maxVal / 10 < cutoff ->
  parse_digits base0 10 cutoff maxVal (formatBits rounds u a) 0 us =
  parse_digits base0 10 cutoff maxVal a u us.
Proof.
  induction rounds as [|r IH]; intros u a us H0 Hr Hm Hmax Hc.
  - simpl in Hr. assert (u = 0) by lia. subst. reflexivity.
  - cbn [formatBits]. destruct (Z.ltb_spec u 10) as [E|E].
    + assert (0 <= maxVal / 10) by (apply Z.div_pos; lia).
      rewrite parse_digit; try lia. reflexivity.
    + assert (Hdiv : 0 <= u / 10) by (apply Z.div_pos; lia).
      assert (Hmod : 0 <= u mod 10 < 10) by (apply Z.mod_pos_bound; lia).
      assert (Hu : u = u / 10 * 10 + u mod 10) by (rewrite (Z.div_mod u 10) at 1; lia).
      rewrite IH; try lia.
      * rewrite parse_digit; try lia.
        -- rewrite <- Hu. reflexivity.
        -- assert (u / 10 <= maxVal / 10) by (apply Z.div_le_mono; lia). lia.
      * rewrite Nat2Z.inj_succ, Z.pow_succ_r in Hr by lia.
        apply Z.div_lt_upper_bound; lia.
Qed.

Lemma formatBits_head rounds : forall u a,
  0 < u -> u < 10 ^ Z.of_nat rounds ->
  exists d rest, formatBits rounds u a = String (digit d) rest /\ 1 <= d <= 9.
Proof.
  induction rounds as [|r IH]; intros u a H0 Hr.
  - simpl in Hr. lia.
  - cbn [formatBits]. destruct (Z.ltb_spec u 10) as [E|E].
    + exists u, a. split; [reflexivity | lia].
    + apply IH.
      * apply Z.div_str_pos. lia.
      * rewrite Nat2Z.inj_succ, Z.pow_succ_r in Hr by lia.
        apply Z.div_lt_upper_bound; lia.
Qed.

(** Parsing the decimal text of a positive [int] gives the number back. *)
Lemma ParseInt_Itoa p :
  0 < p < 2 ^ 63 -> ParseInt (Itoa p) 0 IntSize = (p, None).
Proof.
  intros Hp. unfold Itoa. replace (p <? 0) with false by lia.
  assert (Hr : p < 10 ^ Z.of_nat 20)
    by (change (10 ^ Z.of_nat 20) with 100000000000000000000;
        change (2 ^ 63) with 9223372036854775808 in Hp; lia).
  destruct (formatBits_head 20 p "" ltac:(lia) Hr) as (d & rest & E & Hd).
  pose proof (parse_formatBits true (maxUint64 / 10 + 1) (2 ^ 64 - 1) 20 p "" false) as P.
  rewrite E in P. unfold ParseInt, ParseUint. rewrite E.
  assert (C : Ascii.eqb (digit d) "+" = false /\ Ascii.eqb (digit d) "-" = false
              /\ Ascii.eqb (digit d) "0" = false).
  { assert (Hd' : 0 <= d <= 9) by lia.
    each_digit Hd'; try lia; repeat split; reflexivity. }
  destruct C as (C1 & C2 & C3). rewrite C1, C2, C3.
  change (0 =? 0) with true. change ((2 <=? 0) && (0 <=? 36)) with false. cbv iota.
  change ((IntSize <? 0) || (64 <? IntSize)) with false. cbv iota.
  change (IntSize =? 0) with false. cbv iota. change IntSize with 64.
  rewrite P; try (change (2 ^ 64) with 18446744073709551616;
                  change (2 ^ 63) with 9223372036854775808 in Hp; unfold maxUint64;
                  change (2 ^ 64) with 18446744073709551616; lia).
  cbn [parse_digits andb negb].
  replace (2 ^ (64 - 1) <=? p) with false by (change (2 ^ (64 - 1)) with (2 ^ 63); lia).
  reflexivity.
Qed.

End Decimal.

(** * gorilla/mux: how the routers of Serve match *)

Section MuxFacts.
Context {release : Release}.



Lemma matchAll_pending ms : forall req m e,
  match matchAll ms req m (Some e) with Done _ None => False | _ => True end.
Proof.
  induction ms as [|mt ms IH]; intros req m e; simpl; [exact I|].
  destruct (Match mt req m).1; simpl.
  - apply IH.
  - destruct (isMethodMatcher mt); [apply IH | exact I].
Qed.

Lemma branch_Route_Match sub methods prefix req m :
  strings.HasPrefix prefix "/" = true ->
  Route_Match (addMatcher (Router_matcher sub) (branchRoute methods prefix)) req m =
  if matchInArray (map strings.ToUpper methods) (Method req) then
    if strings.HasPrefix (Path req) prefix then
      let res := Router_Match sub req (clearMM (clearMM m)) in
      if res.1 then (true, clearMM res.2) else (false, clearNF res.2)
    else (false, clearNF (clearMM m))
  else
    if strings.HasPrefix (Path req) prefix then
      let res := Router_Match sub req (clearMM m) in
      if res.1 then (false, setErr (clearMM res.2) (Some ErrMethodMismatch))
      else (false, clearNF res.2)
    else (false, clearNF m).
Proof.
  intros Hp. unfold branchRoute, PathPrefix, addRegexpMatcher, Methods, addMatcher, NewRoute, rBase0.
  simpl. rewrite Hp. simpl.
  assert (Hfin : forall m', (if is_nil (Handler_ m') then setHandler m' nil else m') = m').
  { intros [[] e]; reflexivity. }
  destruct (bool_decide (prefix = "")); simpl;
    unfold Route_Match, setMatch, fullTemplate; simpl;
    fold (clearMM m);
    (destruct (matchInArray _ _); simpl;
     [ fold (clearMM (clearMM m))
     | fold (clearMM m) ];
     (destruct (strings.HasPrefix (Path req) prefix); simpl; [|reflexivity]);
     match goal with |- context [Router_Match sub req ?x] =>
       destruct (Router_Match sub req x) as [[] m'] end; simpl; try reflexivity;
     fold (clearMM m'); rewrite ?andb_false_r, ?Hfin; reflexivity).
Qed.

Lemma clearMM_noMatch : clearMM noMatch = noMatch.
Proof. unfold clearMM. destruct resetsMismatch; reflexivity. Qed.


Lemma rUi_shape c :
  rUi c =
  mkRouter nil nil
    [mkRoute
       (mkRouteConf true false (Some (newRouteRegexp "/ui/" regexpTypePrefix true))
          [methodMatcher uiMethods; prefixMatcher "/ui/"; methodMatcher uiMethods])
       (uiHandler c) false false]
    []
    (mkRouteConf true false (Some (newRouteRegexp "/ui/" regexpTypePrefix true))
       [methodMatcher uiMethods; prefixMatcher "/ui/"]).
Proof. reflexivity. Qed.

(** The Web UI subrouter, asked about a path under /ui/. *)
Lemma rUi_Match c req :
  strings.HasPrefix (Path req) "/ui/" = true ->
  Router_Match (rUi c) req noMatch =
  if matchInArray uiMethods (Method req)
  then (true, mkRouteMatch (uiHandler c) None)
  else (false, mkRouteMatch nil (Some ErrMethodMismatch)).
Proof.
  intros Hp. rewrite rUi_shape. unfold Router_Match. simpl.
  unfold Route_Match, setMatch, prefixMatcher. simpl. rewrite !Hp. simpl.
  destruct (matchInArray uiMethods (Method req)); simpl;
    destruct resetsMismatch; reflexivity.
Qed.



Lemma rApi0_shape c :
  rApi0 c = mkRouter nil nil [] [CorsHandler (corsOptions c)] apiConf.
Proof. reflexivity. Qed.

Lemma SetupRouter_shape api : forall r,
  SetupRouter r api =
  mkRouter (NotFoundHandler_ r) (MethodNotAllowedHandler_ r)
    (routes r ++ map (fun reg => Route_Handler (HandlerFunc (handlerId reg))
                                   (fold_left applyOp (ops reg) (NewRoute r))) api)
    (middlewares r) (rconf r).
Proof.
  unfold SetupRouter. induction api as [|reg api IH]; intros r; cbn [fold_left map].
  - rewrite app_nil_r. destruct r; reflexivity.
  - rewrite IH. simpl. rewrite <- app_assoc. reflexivity.
Qed.

Lemma rApi_shape c api :
  rApi c api = mkRouter nil nil (map (registered c) api) [CorsHandler (corsOptions c)] apiConf.
Proof.
  unfold rApi. change (Use _ _) with (rApi0 c). rewrite SetupRouter_shape. reflexivity.
Qed.


Lemma simple_method ms : simple (methodMatcher ms).
Proof. intros req m. reflexivity. Qed.
Lemma simple_regexp rr : simple (routeRegexp_matcher rr).
Proof. intros req m. reflexivity. Qed.
Lemma simple_func f : simple (MatcherFunc f).
Proof. intros req m. reflexivity. Qed.

Lemma built_addMatcher mt r : simple mt -> built r -> built (addMatcher mt r).
Proof.
  intros Hs [Hb (tail & E & Ht)]. unfold addMatcher. destruct (err r); [split; eauto|].
  split; simpl; [exact Hb|]. exists (tail ++ [mt])%list. rewrite E. split; [symmetry; apply (app_assoc apiBase tail [mt])|].
  apply Forall_app; split; [exact Ht | constructor; [exact Hs | constructor]].
Qed.

Lemma built_addRegexpMatcher tpl rr r : built r -> built (addRegexpMatcher tpl rr r).
Proof.
  intros Hb. unfold addRegexpMatcher. destruct (err r) eqn:Ee; [exact Hb|].
  destruct (_ && _).
  - destruct Hb as [B M]. split; [exact B | exact M].
  - apply built_addMatcher; [apply simple_regexp|].
    destruct Hb as [B M]. split; [exact B | exact M].
Qed.

Lemma built_applyOp r op : built r -> built (applyOp r op).
Proof.
  intros Hb. destruct op; simpl.
  - apply built_addMatcher; [apply simple_method | exact Hb].
  - apply built_addRegexpMatcher, Hb.
  - apply built_addRegexpMatcher, Hb.
  - apply built_addMatcher; [apply simple_func | exact Hb].
Qed.

Lemma built_ops ops : forall r, built r -> built (fold_left applyOp ops r).
Proof.
  induction ops as [|op ops IH]; intros r Hb; simpl; [exact Hb|].
  apply IH, built_applyOp, Hb.
Qed.

Lemma registered_built c reg :
  let r := registered c reg in
  built r /\ (err r = false -> handler r = HandlerFunc (handlerId reg)).
Proof.
  unfold registered, Route_Handler.
  assert (Hb : built (fold_left applyOp (ops reg) (NewRoute (rApi0 c)))).
  { apply built_ops. split; [reflexivity|]. exists []. split; [reflexivity | constructor]. }
  destruct (err _) eqn:Ee; simpl.
  - split; [exact Hb | rewrite Ee; discriminate].
  - split; [|reflexivity]. destruct Hb as [B M]. split; [exact B | exact M].
Qed.


Lemma below_refl m : below m m.
Proof. split; auto. Qed.

Lemma below_trans m1 m2 m3 : below m1 m2 -> below m2 m3 -> below m1 m3.
Proof.
  intros [H1 E1] [H2 E2]. split; [congruence|].
  destruct E1 as [E1|E1]; [|right; exact E1].
  destruct E2 as [E2|E2]; [left | right]; congruence.
Qed.

Lemma below_clearMM m : below (clearMM m) m.
Proof. unfold clearMM. destruct (_ && _); [split; auto | apply below_refl]. Qed.

Lemma below_clearNF m : below (clearNF m) m.
Proof. unfold clearNF. destruct (is_err _ _); [split; auto | apply below_refl]. Qed.

Lemma matchAll_simple req ms : Forall simple ms -> forall m e,
  match matchAll ms req m e with
  | Mismatch m' => below m' m
  | Done m' e' => below m' m /\ (e' = e \/ e' = Some ErrMethodMismatch)
  end.
Proof.
  induction 1 as [|mt ms Hs _ IH]; intros m e; simpl.
  - split; [apply below_refl | auto].
  - rewrite (Hs req m). destruct (Match mt req m).1; simpl.
    + fold (clearMM m). specialize (IH (clearMM m) e).
      destruct (matchAll ms req (clearMM m) e).
      * eapply below_trans; [exact IH | apply below_clearMM].
      * destruct IH as [B E]. split; [|exact E].
        eapply below_trans; [exact B | apply below_clearMM].
    + destruct (isMethodMatcher mt).
      * specialize (IH m (Some ErrMethodMismatch)).
        destruct (matchAll ms req m (Some ErrMethodMismatch)); [exact IH|].
        destruct IH as [B [E|E]]; split; auto.
      * apply below_clearNF.
Qed.

Lemma tidy_below m' m : below m' m -> tidy m -> tidy m'.
Proof. intros [H [E|E]] [T1 T2]; split; congruence. Qed.

Lemma matchAll_method_needed ms tail req m :
  matchInArray ms (Method req) = false ->
  match matchAll (methodMatcher ms :: tail) req m None with
  | Done _ None => False
  | _ => True
  end.
Proof.
  intros E. simpl. rewrite E. simpl. apply matchAll_pending.
Qed.

Lemma setMatch_leaf r req m :
  leaf (Handler_ m) -> leaf (Handler_ (setMatch r req m)) /\
  MatchErr_ (setMatch r req m) = MatchErr_ m.
Proof.
  intros Hl. unfold setMatch. destruct (regexp_path (conf r)) as [rr|]; [|auto].
  destruct (_ && _); [|auto]. destruct (xorb _ _); [|auto].
  split; [right; eexists; reflexivity | reflexivity].
Qed.

(** One registered route, tried on a request. *)
Lemma registered_Route_Match c reg req m :
  tidy m ->
  let res := Route_Match (registered c reg) req m in
  if res.1
  then matchInArray apiMethods (Method req) = true /\
       MatchErr_ res.2 = None /\ leaf (Handler_ res.2)
  else tidy res.2.
Proof.
  intros Ht. destruct (registered_built c reg) as [[Hb (tail & Em & Hs)] Hh].
  set (r := registered c reg) in *. unfold Route_Match. rewrite Hb. simpl.
  destruct (err r) eqn:Ee; [exact Ht|]. specialize (Hh eq_refl).
  assert (Hall : Forall simple (matchers (conf r))).
  { rewrite Em. apply Forall_app. split; [|exact Hs].
    unfold apiBase. constructor; [apply simple_method|].
    constructor; [apply simple_regexp | constructor]. }
  pose proof (matchAll_simple req _ Hall m None) as P.
  pose proof (matchAll_method_needed apiMethods (prefixMatcher "/api/" :: tail) req m) as N.
  change (methodMatcher apiMethods :: prefixMatcher "/api/" :: tail)
    with (apiBase ++ tail)%list in N. rewrite <- Em in N.
  destruct (matchAll (matchers (conf r)) req m None) as [m1|m1 [e1|]]; simpl.
  - eapply tidy_below; eauto.
  - destruct P as [B [E|E]]; [discriminate|]. injection E as ->.
    destruct B as [B1 B2], Ht as [T1 T2]. split; simpl; [congruence | discriminate].
  - destruct P as [[B1 B2] _], Ht as [T1 T2]. split.
    + destruct (matchInArray apiMethods (Method req)); [reflexivity|].
      destruct (N eq_refl).
    + rewrite Hh. simpl. rewrite andb_true_r.
      set (m2 := if is_err m1 ErrMethodMismatch then _ else m1).
      assert (H2 : MatchErr_ m2 = None /\ (Handler_ m2 = nil \/ Handler_ m2 = HandlerFunc (handlerId reg))).
      { unfold m2, is_err. case_bool_decide as Hd; simpl; [auto|].
        split; [|left; congruence].
        destruct B2 as [B2|B2]; [|exact B2].
        destruct (MatchErr_ m1) as [[]|] eqn:E1; try reflexivity; congruence. }
      destruct H2 as [E2 H2].
      set (m3 := if is_nil (Handler_ m2) then _ else m2).
      assert (H3 : MatchErr_ m3 = None /\ leaf (Handler_ m3)).
      { unfold m3. destruct H2 as [H2|H2]; rewrite H2; simpl.
        - split; [exact E2 | left; eexists; reflexivity].
        - split; [exact E2 | rewrite H2; left; eexists; reflexivity]. }
      destruct H3 as [E3 L3]. destruct (setMatch_leaf r req m3 L3) as [L E]. 
      split; [congruence | exact L].
Qed.

Lemma registered_matchRoutes c api req : forall m,
  tidy m ->
  let res := matchRoutes (map (registered c) api) req m in
  if res.1
  then matchInArray apiMethods (Method req) = true /\
       MatchErr_ res.2 = None /\ leaf (Handler_ res.2)
  else tidy res.2.
Proof.
  induction api as [|reg api IH]; intros m Ht; simpl; [exact Ht|].
  pose proof (registered_Route_Match c reg req m Ht) as P. simpl in P.
  destruct (Route_Match (registered c reg) req m) as [[] m1]; simpl in *; [exact P|].
  apply IH, P.
Qed.

(** The API subrouter either finds a route, whose handler it wraps in the
    CORS middleware, or reports why not. *)
Lemma rApi_Match c api req m :
  tidy m ->
  let res := Router_Match (rApi c api) req m in
  if res.1
  then matchInArray apiMethods (Method req) = true /\ MatchErr_ res.2 = None /\
       exists h, Handler_ res.2 = CorsHandler (corsOptions c) h /\ leaf h
  else Handler_ res.2 = nil /\
       (MatchErr_ res.2 = Some ErrMethodMismatch \/ MatchErr_ res.2 = Some ErrNotFound).
Proof.
  intros Ht. rewrite rApi_shape. unfold Router_Match. simpl.
  pose proof (registered_matchRoutes c api req m Ht) as P. simpl in P.
  destruct (matchRoutes (map (registered c) api) req m) as [[] m1]; simpl in *.
  - destruct P as (A & E & L). rewrite E. simpl. split; [exact A|]. split; [exact E|].
    eexists; split; [reflexivity | exact L].
  - destruct P as [T1 T2]. unfold is_err. case_bool_decide as Hd; simpl.
    + split; [exact T1 | left; exact Hd].
    + split; [exact T1 | right; reflexivity].
Qed.

Lemma String_prefix_cons a s b p :
  String.prefix (String a s) (String b p) = if ascii_dec a b then String.prefix s p else false.
Proof. reflexivity. Qed.

Lemma ui_not_api p :
  strings.HasPrefix p "/ui/" = true -> strings.HasPrefix p "/api/" = false.
Proof.
  unfold strings.HasPrefix. destruct p as [|a [|b p]]; try discriminate.
  - rewrite !String_prefix_cons. destruct (ascii_dec "/" a); intros; [reflexivity | discriminate].
  - rewrite !(String_prefix_cons _ _ a), !(String_prefix_cons _ _ b).
    destruct (ascii_dec "/" a); [|discriminate].
    destruct (ascii_dec "u" b) as [<-|]; [|discriminate].
    destruct (ascii_dec "a" "u"); [discriminate | reflexivity].
Qed.

Lemma api_not_ui p :
  strings.HasPrefix p "/api/" = true -> strings.HasPrefix p "/ui/" = false.
Proof.
  intros H. destruct (strings.HasPrefix p "/ui/") eqn:E; [|reflexivity].
  apply ui_not_api in E. congruence.
Qed.

Lemma rBase_shape c api :
  rBase c api =
  mkRouter nil nil
    ((if StartWebUI c then [uiRoute c] else []) ++
     (if StartRestApi c then [apiRoute c api] else []))
    [Logger] (mkRouteConf true false None []).
Proof. unfold rBase. destruct (StartWebUI c), (StartRestApi c); reflexivity. Qed.

Lemma tidy_noMatch : tidy noMatch.
Proof. split; [reflexivity | discriminate]. Qed.

Lemma clearNF_noMatch : clearNF noMatch = noMatch.
Proof. reflexivity. Qed.

(** The Web UI route of rBase on a first try. *)
Lemma uiRoute_Match c req :
  Route_Match (uiRoute c) req noMatch =
  if strings.HasPrefix (Path req) "/ui/" then
    if matchInArray uiMethods (Method req)
    then (true, mkRouteMatch (uiHandler c) None)
    else (false, mkRouteMatch nil (Some ErrMethodMismatch))
  else (false, noMatch).
Proof.
  unfold uiRoute. rewrite branch_Route_Match by reflexivity.
  change (map strings.ToUpper uiMethods) with uiMethods.
  rewrite !clearMM_noMatch, clearNF_noMatch.
  destruct (strings.HasPrefix (Path req) "/ui/") eqn:Hp.
  - rewrite (rUi_Match c req Hp). cbv zeta.
    destruct (matchInArray uiMethods (Method req)); simpl; unfold clearMM; simpl;
      rewrite ?andb_false_r; reflexivity.
  - destruct (matchInArray uiMethods (Method req)); reflexivity.
Qed.

(** The API route of rBase, tried after the Web UI route has left [m]. *)
Lemma apiRoute_Match c api req m :
  tidy m ->
  Route_Match (apiRoute c api) req m =
  if strings.HasPrefix (Path req) "/api/" then
    let res := Router_Match (rApi c api) req (clearMM m) in
    if res.1 then (true, res.2) else (false, clearNF res.2)
  else (false, if matchInArray apiMethods (Method req) then clearMM m else m).
Proof.
  intros Ht. unfold apiRoute. rewrite branch_Route_Match by reflexivity.
  change (map strings.ToUpper apiMethods) with apiMethods.
  assert (Hcc : clearMM (clearMM m) = clearMM m).
  { unfold clearMM. destruct resetsMismatch; simpl; [|reflexivity].
    destruct (is_err m ErrMethodMismatch) eqn:E; simpl; [reflexivity | rewrite E; reflexivity]. }
  assert (Hnf : forall m', tidy m' -> clearNF m' = m').
  { intros m' [_ T]. unfold clearNF, is_err. case_bool_decide; [contradiction | reflexivity]. }
  assert (Htc : tidy (clearMM m)) by (eapply tidy_below; [apply below_clearMM | exact Ht]).
  rewrite Hcc.
  destruct (strings.HasPrefix (Path req) "/api/") eqn:Hp.
  - pose proof (rApi_Match c api req (clearMM m) Htc) as P. cbv zeta in *.
    destruct (Router_Match (rApi c api) req (clearMM m)) as [[] m1]; simpl in *.
    + destruct P as (A & E & _). rewrite A. simpl. unfold clearMM, is_err. rewrite E.
      rewrite andb_false_r. reflexivity.
    + destruct (matchInArray apiMethods (Method req)); reflexivity.
  - rewrite (Hnf _ Htc), (Hnf _ Ht).
    destruct (matchInArray apiMethods (Method req)); reflexivity.
Qed.

Lemma tidy_mismatch : tidy (mkRouteMatch nil (Some ErrMethodMismatch)).
Proof. split; [reflexivity | discriminate]. Qed.


(** What rBase answers to a request whose path is in canonical form. *)
Theorem dispatch c api req :
  cleanPath (Path req) = Path req ->
  Router_handler (rBase c api) req =
  if StartWebUI c && strings.HasPrefix (Path req) "/ui/" then uiResponse c req
  else if StartRestApi c && strings.HasPrefix (Path req) "/api/"
  then apiResponse (Router_Match (rApi c api) req noMatch)
  else NotFoundHandler.
Proof.
  intros Hc. set (res := Router_Match (rApi c api) req noMatch).
  unfold Router_handler. rewrite rBase_shape. cbn [rconf skipClean negb andb].
  rewrite Hc, bool_decide_eq_true_2 by reflexivity. cbn [negb].
  unfold Router_Match. cbn [routes middlewares NotFoundHandler_ MethodNotAllowedHandler_ is_nil negb foldr].
  pose proof (rApi_Match c api req noMatch tidy_noMatch) as PA. cbv zeta in PA.
  pose proof (apiRoute_Match c api req noMatch tidy_noMatch) as RA.
  pose proof (apiRoute_Match c api req _ tidy_mismatch) as RM.
  rewrite clearMM_noMatch in RA. cbv zeta in RA, RM. fold res in PA, RA. clearbody res.
  unfold uiResponse, apiResponse.
  destruct (StartWebUI c), (StartRestApi c); cbn [app matchRoutes andb];
    rewrite ?uiRoute_Match;
    destruct (strings.HasPrefix (Path req) "/ui/") eqn:Hui;
    try (pose proof (ui_not_api _ Hui) as Hapi; rewrite Hapi in RA, RM);
    try rewrite Hapi.
  all: destruct (matchInArray uiMethods (Method req)) eqn:Hget; cbn [fst snd].
  all: try (rewrite ?RM, ?RA; cbn -[matchInArray];
            destruct (matchInArray apiMethods (Method req)); unfold clearMM;
            destruct resetsMismatch; reflexivity).
  all: try reflexivity.
  all: destruct (strings.HasPrefix (Path req) "/api/") eqn:Hapi; rewrite RA;
    [| cbn -[matchInArray]; destruct (matchInArray apiMethods (Method req)); reflexivity ].
  all: destruct res as [[] m1]; cbn [fst snd] in *.
  all: try (destruct PA as (_ & E & h & Eh & _); destruct m1 as [h1 e1]; cbn in *; subst;
            reflexivity).
  all: destruct PA as [Eh [E|E]]; destruct m1 as [h1 e1]; cbn in *; subst; reflexivity.
Qed.
Lemma handler_cases c api req :
  Router_handler (rBase c api) req =
  if bool_decide (cleanPath (Path req) = Path req) then
    if StartWebUI c && strings.HasPrefix (Path req) "/ui/" then uiResponse c req
    else if StartRestApi c && strings.HasPrefix (Path req) "/api/"
    then apiResponse (Router_Match (rApi c api) req noMatch)
    else NotFoundHandler
  else RedirectHandler (cleanPath (Path req)) StatusMovedPermanently.
Proof.
  case_bool_decide as Hc.
  - apply dispatch, Hc.
  - unfold Router_handler. rewrite rBase_shape. cbn [rconf skipClean negb andb].
    rewrite bool_decide_eq_false_2 by exact Hc. reflexivity.
Qed.

Lemma apiResponse_cases c api req :
  let h := apiResponse (Router_Match (rApi c api) req noMatch) in
  (matchInArray apiMethods (Method req) = true /\
   exists h', h = Logger (CorsHandler (corsOptions c) h') /\ leaf h') \/
  h = methodNotAllowedHandler \/ h = NotFoundHandler.
Proof.
  pose proof (rApi_Match c api req noMatch tidy_noMatch) as P. cbv zeta in *.
  unfold apiResponse. destruct (Router_Match (rApi c api) req noMatch) as [[] m]; cbn [fst snd] in *.
  - left. destruct P as (A & _ & h' & E & L). split; [exact A|]. exists h'. rewrite E. auto.
  - right. destruct (is_err m ErrMethodMismatch); auto.
Qed.

Lemma uiResponse_cases c req :
  uiResponse c req = Logger (uiHandler c) /\ matchInArray uiMethods (Method req) = true \/
  uiResponse c req = methodNotAllowedHandler \/ uiResponse c req = NotFoundHandler.
Proof.
  unfold uiResponse. destruct (matchInArray uiMethods (Method req)); [left; auto|].
  right. destruct (_ && _); auto.
Qed.



End MuxFacts.

(** * Serving a request: what reaches the log *)

Lemma logLines_app t1 t2 : logLines (t1 ++ t2) = (logLines t1 ++ logLines t2)%list.
Proof. unfold logLines. apply omap_app. Qed.

Lemma logLines_effects l : logLines (map Effect l) = [].
Proof. induction l as [|e l IH]; [reflexivity | exact IH]. Qed.

Section ServingFacts.
Context {release : Release} {collab : Collaborators}.

Lemma appends_perform P b w :
  P (map Effect (effects b)) -> appends P w (perform b w).
Proof.
  intros H. exists (map Effect (effects b)). cbn.
  split; [reflexivity|]. split; [exact H | lia].
Qed.

Lemma appends_emit (P : list event -> Prop) e w :
  P [e] -> appends P w (emit e w, false).
Proof. intros H. exists [e]. cbn. split; [reflexivity|]. split; [exact H | lia]. Qed.

Lemma appends_trans (P : list event -> Prop) w res1 res2 :
  (forall t1 t2, P t1 -> P t2 -> P (t1 ++ t2)%list) ->
  appends P w res1 -> appends P res1.1 res2 -> appends P w res2.
Proof.
  intros HP (t1 & E1 & P1 & N1) (t2 & E2 & P2 & N2). exists (t1 ++ t2)%list.
  rewrite E2, E1, app_assoc. split; [reflexivity|]. split; [apply HP; assumption | lia].
Qed.

Lemma silent_app t1 t2 : silent t1 -> silent t2 -> silent (t1 ++ t2)%list.
Proof.
  intros [L1 F1] [L2 F2]. split; [rewrite logLines_app, L1, L2; reflexivity|].
  apply Forall_app; auto.
Qed.

Lemma silent_effects l : silent (map Effect l).
Proof.
  split; [apply logLines_effects|]. apply Forall_forall. intros e He.
  apply list_elem_of_fmap in He as (x & -> & _). reflexivity.
Qed.

Lemma silent_header code url : silent [WriteHeader code url].
Proof. split; [reflexivity | repeat constructor]. Qed.

(** A handler without Logger writes no log line. *)
Lemma ServeHTTP_loggerFree h : loggerFree h = true ->
  forall r w, appends silent w (ServeHTTP h r w).
Proof.
  induction h; intros Hf r w; cbn [ServeHTTP loggerFree] in *; try discriminate.
  - exists []. rewrite app_nil_r. cbn. split; [reflexivity|]. split; [|lia].
    split; [reflexivity | constructor].
  - apply appends_perform, silent_effects.
  - case_bool_decide; [apply IHh, Hf|].
    destruct (_ && _); [apply IHh, Hf | apply appends_emit, silent_header].
  - destruct (_ && _); [apply appends_perform, silent_effects|].
    destruct (perform (handleActualRequest opts r) w) as [w1 []] eqn:E; cbn [snd fst].
    + rewrite <- E. apply appends_perform, silent_effects.
    + apply (appends_trans silent w (perform (handleActualRequest opts r) w));
        [apply silent_app | apply appends_perform, silent_effects |].
      rewrite E. apply IHh, Hf.
  - apply appends_perform, silent_effects.
  - apply appends_emit, silent_header.
  - apply appends_emit, silent_header.
  - apply appends_emit, silent_header.
Qed.

Lemma leaf_loggerFree h : leaf h -> loggerFree h = true.
Proof. intros [[id ->] | [u ->]]; reflexivity. Qed.

(** The handler rBase selects is a built-in answer, or a handler
    without Logger wrapped once in Logger. *)
Lemma handler_shape c api req :
  let h := Router_handler (rBase c api) req in
  (exists inner, h = Logger inner /\ loggerFree inner = true) \/
  (routed h = false /\ loggerFree h = true).
Proof.
  cbv zeta. rewrite handler_cases.
  pose proof (apiResponse_cases c api req) as PA. cbv zeta in PA.
  pose proof (uiResponse_cases c req) as PU.
  case_bool_decide; [|right; split; reflexivity].
  destruct (_ && _).
  - destruct PU as [[-> _]|[->| ->]];
      [left; eexists; split; reflexivity | right; split; reflexivity ..].
  - destruct (_ && _); [|right; split; reflexivity].
    destruct PA as [(_ & h' & -> & L)|[->| ->]]; [|right; split; reflexivity ..].
    left. eexists. split; [reflexivity|]. cbn. apply leaf_loggerFree, L.
Qed.

(** What rBase answers under [/api/] to a method outside the API
    branch's list. *)
Lemma apiResponse_disallowed c api req :
  matchInArray apiMethods (Method req) = false ->
  apiResponse (Router_Match (rApi c api) req noMatch) =
  if is_err (Router_Match (rApi c api) req noMatch).2 ErrMethodMismatch
  then methodNotAllowedHandler else NotFoundHandler.
Proof.
  intros Hm.
  pose proof (rApi_Match c api req noMatch tidy_noMatch) as P. cbv zeta in P.
  unfold apiResponse.
  destruct (Router_Match (rApi c api) req noMatch) as [[] m]; cbn [fst snd] in *.
  - destruct P as [A _]. congruence.
  - reflexivity.
Qed.

End ServingFacts.

(** * Goroutines: the steps of a call and the call *)

Lemma runAlone_add a b g w :
  runAlone (a + b) g w = runAlone b (runAlone a g w).1 (runAlone a g w).2.
Proof.
  revert g w. induction a as [|a IH]; intros g w; [reflexivity|].
  cbn [Nat.add runAlone]. apply IH.
Qed.

Lemma runAlone_done n st w :
  runAlone n (mkGoroutine [] st) w = (mkGoroutine [] st, w).
Proof. induction n as [|n IH]; [reflexivity | exact IH]. Qed.

Lemma perform_eq b w : perform b w = ((perform b w).1, panics b).
Proof. reflexivity. Qed.

Section GoroutineFacts.
Context {collab : Collaborators}.

(** A call that returns: its steps, taken without interruption, leave
    the goroutine with what follows the call, in the world the call
    returns. *)
Lemma code_returns h : forall r w w',
  ServeHTTP h r w = (w', false) ->
  forall k st,
    runAlone (length (code h r)) (mkGoroutine (code h r ++ k) st) w = (mkGoroutine k st, w').
Proof.
  induction h as [|root|prefix h IHh|h IHh|opts h IHh|id|url status| |];
    intros r w w' E k st; cbn [ServeHTTP code] in *.
  - discriminate E.
  - rewrite perform_eq in E. injection E as <- Hp. cbn. rewrite Hp. reflexivity.
  - case_bool_decide; [apply IHh, E|].
    destruct (_ && _); [apply IHh, E|].
    injection E as <-. reflexivity.
  - destruct (ServeHTTP h r w) as [w1 []] eqn:E1; cbn [fst snd] in E; [discriminate E|].
    injection E as <-.
    cbn [length app]. rewrite length_app.
    cbn [length runAlone step todo starts fst snd].
    rewrite <- app_assoc, runAlone_add, (IHh r w w1 E1). reflexivity.
  - destruct (_ && _).
    + rewrite perform_eq in E. injection E as <- Hp. cbn. rewrite Hp. reflexivity.
    + cbn [perform fst snd] in E. revert E.
      destruct (panics (handleActualRequest opts r)) eqn:Hp; intros E;
        [rewrite perform_eq, Hp in E; discriminate E|].
      cbn [length app runAlone step todo starts fst snd]. rewrite Hp.
      apply IHh, E.
  - rewrite perform_eq in E. injection E as <- Hp. cbn. rewrite Hp. reflexivity.
  - injection E as <-. reflexivity.
  - injection E as <-. reflexivity.
  - injection E as <-. reflexivity.
Qed.

(** A call that panics: after some of its steps nothing is left to do but
    the recovery of [c.serve()], in the world the call leaves behind. *)
Lemma code_panics h : forall r w w',
  ServeHTTP h r w = (w', true) ->
  forall k st, exists j st',
    (j < length (code h r))%nat /\
    runAlone (S j) (mkGoroutine (code h r ++ k) st) w = (mkGoroutine recovered st', w').
Proof.
  induction h as [|root|prefix h IHh|h IHh|opts h IHh|id|url status| |];
    intros r w w' E k st; cbn [ServeHTTP code] in *.
  - injection E as <-. exists O, st. split; [cbn; lia | reflexivity].
  - rewrite perform_eq in E. injection E as <- Hp. exists O, st.
    split; [cbn; lia|]. cbn. rewrite Hp. reflexivity.
  - case_bool_decide; [apply IHh, E|].
    destruct (_ && _); [apply IHh, E | discriminate E].
  - destruct (ServeHTTP h r w) as [w1 []] eqn:E1; cbn [fst snd] in E; [|discriminate E].
    injection E as <-.
    destruct (IHh r w w1 E1 ([Printf (Method r) (RequestURI r)] ++ k)%list (now w :: st))
      as (j & st' & Hj & Hrun).
    exists (S j), st'. split; [cbn [length]; rewrite length_app; lia|].
    cbn [app]. rewrite <- app_assoc. exact Hrun.
  - destruct (_ && _).
    + rewrite perform_eq in E. injection E as <- Hp. exists O, st.
      split; [cbn; lia|]. cbn. rewrite Hp. reflexivity.
    + cbn [perform fst snd] in E. revert E.
      destruct (panics (handleActualRequest opts r)) eqn:Hp; intros E.
      * rewrite perform_eq in E. injection E as <-. exists O, st. split; [cbn; lia|]. cbn. rewrite Hp. reflexivity.
      * destruct (IHh r _ w' E k st) as (j & st' & Hj & Hrun).
        exists (S j), st'. split; [cbn [length]; lia|].
        cbn [app]. change (runAlone (S (S j)) ?g ?w) with
          (runAlone (S j) (step g w).1 (step g w).2).
        cbn [step todo starts fst snd]. rewrite Hp. exact Hrun.
  - rewrite perform_eq in E. injection E as <- Hp. exists O, st.
    split; [cbn; lia|]. cbn. rewrite Hp. reflexivity.
  - discriminate E.
  - discriminate E.
  - discriminate E.
Qed.

(** [c.serve()], left alone for as many steps as it has to do and one
    more, serves its requests as [conn_serve] says. *)
Lemma conn_alone (pick : Request -> Handler) requests : forall w st n,
  (length (concat (map (fun r => code (pick r) r) requests)) < n)%nat ->
  exists st',
    runAlone n (mkGoroutine (concat (map (fun r => code (pick r) r) requests)) st) w =
    (mkGoroutine [] st', conn_serve (fun r w => ServeHTTP (pick r) r w) requests w).
Proof.
  induction requests as [|r rest IH]; intros w st n Hn; cbn [map concat conn_serve].
  - exists st. apply runAlone_done.
  - cbn [map concat] in Hn. rewrite length_app in Hn.
    destruct (ServeHTTP (pick r) r w) as [w1 []] eqn:E; cbn [fst snd].
    + destruct (code_panics _ _ _ _ E (concat (map (fun r => code (pick r) r) rest)) st)
        as (j & st' & Hj & Hrun).
      exists st'. replace n with (S j + (1 + (n - S (S j))))%nat by lia.
      rewrite runAlone_add, Hrun. cbn [fst snd]. rewrite runAlone_add.
      cbn [runAlone step recovered todo starts fst snd]. apply runAlone_done.
    + replace n with (length (code (pick r) r) + (n - length (code (pick r) r)))%nat by lia.
      rewrite runAlone_add, (code_returns _ _ _ _ E). cbn [fst snd].
      apply IH. lia.
Qed.

End GoroutineFacts.

(** ** The scheduler *)

Lemma runSchedule_app s1 s2 pool w :
  runSchedule (s1 ++ s2) pool w =
  runSchedule s2 (runSchedule s1 pool w).1 (runSchedule s1 pool w).2.
Proof.
  revert pool w. induction s1 as [|i s1 IH]; intros pool w; [reflexivity|].
  cbn [app runSchedule]. destruct (pool !! i); apply IH.
Qed.

Lemma runSchedule_replicate n i : forall pool g w,
  pool !! i = Some g ->
  runSchedule (replicate n i) pool w =
  (<[i := (runAlone n g w).1]> pool, (runAlone n g w).2).
Proof.
  induction n as [|n IH]; intros pool g w Hl; cbn [replicate runSchedule runAlone].
  - cbn. rewrite list_insert_id by exact Hl. reflexivity.
  - rewrite Hl.
    assert (Hi : (i < length pool)%nat) by (eapply lookup_lt_Some; eauto).
    rewrite (IH _ (step g w).1) by (apply list_lookup_insert_eq; exact Hi).
    rewrite list_insert_insert_eq. reflexivity.
Qed.
Lemma runSchedule_nil s w : runSchedule s [] w = ([], w).
Proof. induction s as [|i s IH]; [reflexivity | exact IH]. Qed.

Lemma logPairs_app t1 t2 : logPairs (t1 ++ t2) = (logPairs t1 ++ logPairs t2)%list.
Proof. unfold logPairs. rewrite logLines_app, fmap_app. reflexivity. Qed.

Lemma logPairs_effects l : logPairs (map Effect l) = [].
Proof. unfold logPairs. rewrite logLines_effects. reflexivity. Qed.

Lemma pending_app a b : pending (a ++ b) = (pending a ++ pending b)%list.
Proof. apply omap_app. Qed.

(** One step of a goroutine: it goes on saying what handlers say, it
    writes request events, and a log line it writes was pending. *)
Lemma step_scheduled g w :
  Forall (fun i => handlerSays i = true) (todo g) ->
  Forall (fun i => handlerSays i = true) (todo (step g w).1) /\
  (exists t, trace (step g w).2 = (trace w ++ t)%list /\
             Forall (fun e => requestEvent e = true) t) /\
  (logPairs (trace (step g w).2) ++ pending (todo (step g w).1))%list ⊆+
  (logPairs (trace w) ++ pending (todo g))%list.
Proof.
  intros Hs. destruct g as [[|i rest] st]; unfold step; cbn [todo starts].
  - cbn [fst snd todo]. split; [exact Hs|]. split; [|reflexivity].
    exists []. rewrite app_nil_r. split; [reflexivity | constructor].
  - inversion Hs as [|? ? Hi Hrest]; subst.
    assert (Hrec : Forall (fun i => handlerSays i = true) recovered)
      by (repeat constructor).
    destruct i as [b|e| | |m u]; cbn [fst snd todo].
    + split; [destruct (panics b); assumption|]. split.
      * exists (map Effect (effects b)). split; [reflexivity|].
        apply Forall_forall. intros e He.
        apply list_elem_of_fmap in He as (x & -> & _). reflexivity.
      * cbn [perform fst trace]. rewrite logPairs_app, logPairs_effects, app_nil_r.
        apply submseteq_skips_l. cbn [pending omap].
        destruct (panics b); [apply submseteq_nil_l | reflexivity].
    + split; [exact Hrest|]. split.
      * exists [e]. split; [reflexivity|]. constructor; [|constructor].
        destruct e; try discriminate Hi; reflexivity.
      * cbn [emit trace]. rewrite logPairs_app.
        destruct e; try discriminate Hi; cbn; rewrite app_nil_r; reflexivity.
    + split; [exact Hrec|]. split.
      * exists []. rewrite app_nil_r. split; [reflexivity | constructor].
      * apply submseteq_skips_l. apply submseteq_nil_l.
    + split; [exact Hrest|]. split; [|reflexivity].
      exists []. rewrite app_nil_r. split; [reflexivity | constructor].
    + destruct st as [|s ss]; cbn [fst snd todo].
      * split; [exact Hrest|]. split.
        -- exists []. rewrite app_nil_r. split; [reflexivity | constructor].
        -- apply submseteq_skips_l. cbn. apply submseteq_cons. reflexivity.
      * split; [exact Hrest|]. split.
        -- eexists [_]. split; [reflexivity|]. repeat constructor.
        -- cbn [emit trace]. rewrite logPairs_app. cbn. rewrite <- app_assoc. reflexivity.
Qed.

Lemma pendingPool_insert pool i g g' :
  pool !! i = Some g ->
  pendingPool pool ≡ₚ (pending (todo g) ++ pendingPool (take i pool ++ drop (S i) pool))%list /\
  pendingPool (<[i := g']> pool) ≡ₚ
    (pending (todo g') ++ pendingPool (take i pool ++ drop (S i) pool))%list.
Proof.
  intros Hl. assert (Hi : (i < length pool)%nat) by (eapply lookup_lt_Some; eauto).
  rewrite (insert_take_drop pool i g' Hi).
  rewrite <- (take_drop_middle pool i g Hl) at 1.
  unfold pendingPool. rewrite !map_app, !concat_app. cbn [map concat].
  split.
  - rewrite (app_assoc (concat _) (pending (todo g))).
    rewrite (Permutation_app_comm (concat _) (pending (todo g))).
    rewrite <- app_assoc. reflexivity.
  - rewrite (app_assoc (concat _) (pending (todo g'))).
    rewrite (Permutation_app_comm (concat _) (pending (todo g'))).
    rewrite <- app_assoc. reflexivity.
Qed.

(** Whatever the scheduler picks. *)
Lemma runSchedule_scheduled s : forall pool w,
  Forall (fun g => Forall (fun i => handlerSays i = true) (todo g)) pool ->
  scheduled pool w (runSchedule s pool w).
Proof.
  induction s as [|i s IH]; intros pool w Hp; cbn [runSchedule].
  - split; [exact Hp|]. split; [|reflexivity].
    exists []. rewrite app_nil_r. split; [reflexivity | constructor].
  - destruct (pool !! i) as [g|] eqn:Hl; [|apply IH, Hp].
    assert (Hg : Forall (fun i => handlerSays i = true) (todo g)).
    { rewrite Forall_forall in Hp. apply Hp. eapply list_elem_of_lookup_2; eauto. }
    destruct (step_scheduled g w Hg) as (Hg' & (t1 & E1 & F1) & S1).
    assert (Hp' : Forall (fun g => Forall (fun i => handlerSays i = true) (todo g))
                    (<[i := (step g w).1]> pool)).
    { apply Forall_insert; assumption. }
    destruct (IH (<[i := (step g w).1]> pool) (step g w).2 Hp')
      as (Hfin & (t2 & E2 & F2) & S2).
    split; [exact Hfin|]. split.
    + exists (t1 ++ t2)%list. rewrite E2, E1, app_assoc. split; [reflexivity|].
      apply Forall_app; auto.
    + etrans; [exact S2|].
      destruct (pendingPool_insert pool i g (step g w).1 Hl) as [P1 P2].
      rewrite P1, P2, !app_assoc. apply submseteq_skips_r. exact S1.
Qed.
Section ServeFacts.
Context {release : Release} {collab : Collaborators}.

Lemma code_says h : forall r, Forall (fun i => handlerSays i = true) (code h r).
Proof.
  induction h as [|root|prefix h IHh|h IHh|opts h IHh|id|url status| |];
    intros r; cbn [code]; try (repeat constructor).
  - case_bool_decide; [apply IHh|].
    destruct (_ && _); [apply IHh | repeat constructor].
  - apply Forall_app. split; [apply IHh | repeat constructor].
  - destruct (_ && _); [repeat constructor|].
    constructor; [reflexivity | apply IHh].
Qed.

Lemma conn_says (handler : Request -> list instr) requests :
  (forall r, Forall (fun i => handlerSays i = true) (handler r)) ->
  Forall (fun i => handlerSays i = true) (todo (conn handler requests)).
Proof.
  intros H. unfold conn. cbn [todo].
  induction requests as [|r rest IH]; cbn [map concat]; [constructor|].
  apply Forall_app. split; [apply H | exact IH].
Qed.

Lemma pool_says c api conns :
  Forall (fun g => Forall (fun i => handlerSays i = true) (todo g))
    (map (conn (serveCode c api)) conns).
Proof.
  apply Forall_forall. intros g Hg.
  apply list_elem_of_fmap in Hg as (requests & -> & _).
  apply conn_says. intros r. apply code_says.
Qed.

Lemma pending_loggerFree h : forall r, loggerFree h = true -> pending (code h r) = [].
Proof.
  induction h as [|root|prefix h IHh|h IHh|opts h IHh|id|url status| |];
    intros r Hf; cbn [code loggerFree] in *; try reflexivity; try discriminate Hf.
  - case_bool_decide; [apply IHh, Hf|].
    destruct (_ && _); [apply IHh, Hf | reflexivity].
  - destruct (_ && _); [reflexivity|]. cbn [pending omap]. apply IHh, Hf.
Qed.

(** The code of rBase.ServeHTTP has one log line to write when a route
    is found, and none otherwise. *)
Lemma pending_serveCode c api r :
  pending (serveCode c api r) =
  if routed (Router_handler (rBase c api) r) then [(Method r, RequestURI r)] else [].
Proof.
  unfold serveCode.
  destruct (handler_shape c api r) as [(inner & -> & Hf) | [Hr Hf]].
  - cbn [code routed]. change (Clock :: ?l) with ([Clock] ++ l)%list.
    rewrite !pending_app, (pending_loggerFree inner r Hf). reflexivity.
  - rewrite Hr. apply pending_loggerFree, Hf.
Qed.

Lemma routedPairs_app c api l1 l2 :
  routedPairs c api (l1 ++ l2) = (routedPairs c api l1 ++ routedPairs c api l2)%list.
Proof. apply omap_app. Qed.

Lemma pending_conn c api requests :
  pending (todo (conn (serveCode c api) requests)) = routedPairs c api requests.
Proof.
  unfold conn. cbn [todo].
  induction requests as [|r rest IH]; [reflexivity|].
  cbn [map concat]. rewrite pending_app, IH, pending_serveCode.
  unfold routedPairs. cbn [omap list_omap]. destruct (routed _); reflexivity.
Qed.

Lemma pendingPool_conns c api conns :
  pendingPool (map (conn (serveCode c api)) conns) = routedPairs c api (concat conns).
Proof.
  unfold pendingPool. induction conns as [|requests rest IH]; [reflexivity|].
  cbn [map concat]. rewrite IH, pending_conn, routedPairs_app. reflexivity.
Qed.

(** Served one after the other, the connections are served as
    [conn_serve] says. *)
Lemma oneByOne_run c api conns : forall done w,
  (runSchedule (oneByOne (length done) (map (conn (serveCode c api)) conns))
     (done ++ map (conn (serveCode c api)) conns) w).2 =
  fold_left (fun w requests => conn_serve (serveRequest c api) requests w) conns w.
Proof.
  induction conns as [|requests rest IH]; intros done w; [reflexivity|].
  cbn [map oneByOne fold_left]. rewrite runSchedule_app.
  rewrite (runSchedule_replicate _ _ _ (conn (serveCode c api) requests))
    by (apply list_lookup_middle; reflexivity).
  cbn [fst snd].
  destruct (conn_alone (fun r => Router_handler (rBase c api) r) requests w []
              (S (length (todo (conn (serveCode c api) requests)))))
    as (st' & E); [exact (Nat.lt_succ_diag_r _)|].
  change (mkGoroutine (concat (map (fun r => code (Router_handler (rBase c api) r) r)
                                 requests)) [])
    with (conn (serveCode c api) requests) in E.
  rewrite E. cbn [fst snd].
  replace (length done) with (length done + 0)%nat at 2 by lia.
  rewrite insert_app_r.
  change (<[0%nat := ?x]> (?y :: ?l)) with (x :: l).
  change (conn_serve (fun r w0 => ServeHTTP (Router_handler (rBase c api) r) r w0))
    with (conn_serve (serveRequest c api)).
  set (g' := mkGoroutine [] st').
  replace (done ++ g' :: map (conn (serveCode c api)) rest)%list
    with ((done ++ [g']) ++ map (conn (serveCode c api)) rest)%list
    by (rewrite <- app_assoc; reflexivity).
  replace (S (length done)) with (length (done ++ [g'])%list)
    by (rewrite length_app; cbn; lia).
  apply IH.
Qed.

(** What Serve writes between the listener and the end, whatever the
    scheduler does. *)
Lemma Serve_trace c api net w :
  exists before after,
    trace (Serve c api net w) =
    (trace w ++ ListenTCP (":" ++ strconv.Itoa (LocalPort c)) :: before ++
     LogFatal (listenError net) :: after ++ [OsExit 1])%list /\
    Forall (fun e => requestEvent e = true) (before ++ after) /\
    match bindError net with Some _ => before = [] /\ after = [] | None => True end /\
    (logPairs before ++ logPairs after)%list ⊆+ routedPairs c api (concat (arrivals net)).
Proof.
  unfold Serve, ListenAndServe, log_Fatal, listenError.
  destruct (bindError net) as [e|]; cbn [fst snd].
  - exists [], []. rewrite runSchedule_nil. cbn [fst snd emit trace].
    rewrite <- !app_assoc. repeat split; try constructor. apply submseteq_nil_l.
  - set (addr := (":" ++ strconv.Itoa (LocalPort c))%string).
    set (pool := map (conn (serveCode c api)) (arrivals net)).
    set (w1 := emit (ListenTCP addr) w).
    destruct (runSchedule_scheduled (schedule net) pool w1 (pool_says c api _))
      as (Hp1 & (t1 & E1 & F1) & S1).
    set (res1 := runSchedule (schedule net) pool w1) in *.
    set (w2 := emit (LogFatal (acceptError net)) res1.2).
    destruct (runSchedule_scheduled (lastSteps net) res1.1 w2 Hp1)
      as (Hp2 & (t2 & E2 & F2) & S2).
    set (res2 := runSchedule (lastSteps net) res1.1 w2) in *.
    exists t1, t2. cbn [emit trace]. rewrite E2. unfold w2. cbn [emit trace].
    rewrite E1. unfold w1. cbn [emit trace].
    split; [rewrite <- !app_assoc; reflexivity|].
    split; [apply Forall_app; auto|]. split; [exact I|].
    rewrite E2 in S2. unfold w2 in S2. cbn [emit trace] in S2.
    rewrite E1 in S2, S1. unfold w1 in S2, S1. cbn [emit trace] in S2, S1.
    rewrite !logPairs_app in S2. rewrite !logPairs_app in S1.
    change (logPairs [LogFatal (acceptError net)]) with (@List.nil (string * string)) in S2.
    change (logPairs [ListenTCP addr]) with (@List.nil (string * string)) in S2.
    change (logPairs [ListenTCP addr]) with (@List.nil (string * string)) in S1.
    rewrite !app_nil_r in S2. rewrite !app_nil_r in S1.
    unfold pool in S1. rewrite pendingPool_conns in S1.
    apply (submseteq_app_inv_l _ _ (logPairs (trace w))).
    etrans; [|exact S1]. etrans; [|exact S2].
    rewrite !app_assoc. apply submseteq_inserts_r. rewrite <- !app_assoc. reflexivity.
Qed.

End ServeFacts.
(** * Trailing slashes under [/api/] *)

Section SlashFacts.
Context {release : Release}.







End SlashFacts.


(** ** flag.Parsed() after flag.Parse(), in any state *)

Ltac kept := eexists _, _; split; [reflexivity|]; reflexivity.





(** ParseArgs declares its flags again at every call. *)
Lemma ParseArgs_redeclares p :
  ready p -> exists msg p'', ParseArgs p = Panicked msg p''.
Proof.
  intros Hr. destruct (ready_lookup p "port" KInt Hr eq_refl) as (fl & Hl & _).
  unfold ParseArgs, flagset.Int, flagset.Var, bind at 1 2 3, getFlags.
  change (strings.HasPrefix "port" "-") with false. cbv iota.
  rewrite bool_decide_eq_false_2.
  2:{ cbn. rewrite !elem_of_cons, elem_of_nil. intros [?|[?|[?|[?|[]]]]]; discriminate. }
  rewrite Hl. eexists _, _. reflexivity.
Qed.
(** * The properties of the specification *)

Section Claims.
Context {release : Release}.

(** C1 (as amended): a branch whose enable flag is false is never handed
    a request, and a request for a path in canonical form under its prefix
    is answered by the not-found handler. *)
Theorem disabled_branch_not_found c api req b :
  enabled c b = false ->
  ~ servedBy b (Router_handler (rBase c api) req) /\
  (cleanPath (Path req) = Path req -> strings.HasPrefix (Path req) (prefixOf b) = true ->
   Router_handler (rBase c api) req = NotFoundHandler).
Proof.
  intros He. rewrite handler_cases.
  pose proof (apiResponse_cases c api req) as PA. cbv zeta in PA.
  pose proof (uiResponse_cases c req) as PU.
  destruct b; cbn [enabled prefixOf servedBy] in *; rewrite He; cbn [andb].
  - split.
    + intros (root & E). case_bool_decide; [|discriminate].
      destruct (_ && _); [|discriminate].
      destruct PA as [(_ & h' & E' & _)|[E'|E']]; rewrite E' in E; discriminate.
    + intros Hc Hp. rewrite bool_decide_eq_true_2 by exact Hc.
      rewrite (ui_not_api _ Hp), andb_false_r. reflexivity.
  - split.
    + intros (opts & h' & E). case_bool_decide; [|discriminate].
      destruct (_ && _); [|discriminate].
      destruct PU as [[E' _]|[E'|E']]; rewrite E' in E; discriminate.
    + intros Hc Hp. rewrite bool_decide_eq_true_2 by exact Hc.
      rewrite (api_not_ui _ Hp), andb_false_r. reflexivity.
Qed.

(** C4 (as amended): a request for a canonical path under the prefix of a
    mounted branch, with a method outside that branch's list, is answered
    by the method-not-allowed handler or by the not-found handler, as the
    other routes decide; it reaches no handler of either branch. *)
Theorem disallowed_method_response c api req b :
  enabled c b = true ->
  cleanPath (Path req) = Path req ->
  strings.HasPrefix (Path req) (prefixOf b) = true ->
  matchInArray (methodsOf b) (Method req) = false ->
  Router_handler (rBase c api) req =
  match b with
  | WebUI =>
      if resetsMismatch && StartRestApi c && matchInArray apiMethods (Method req)
      then NotFoundHandler else methodNotAllowedHandler
  | RestApi =>
      if is_err (Router_Match (rApi c api) req noMatch).2 ErrMethodMismatch
      then methodNotAllowedHandler else NotFoundHandler
  end.
Proof.
  intros He Hc Hp Hm. rewrite (dispatch c api req Hc).
  destruct b; cbn [enabled prefixOf methodsOf] in *.
  - rewrite He, Hp. cbn [andb]. unfold uiResponse. rewrite Hm. reflexivity.
  - rewrite He, Hp, (api_not_ui _ Hp), andb_false_r. cbn [andb].
    apply apiResponse_disallowed, Hm.
Qed.


(** C10 (as amended): a PUT request for a canonical path under [/api/]
    reaches no handler: the answer is method-not-allowed or not-found,
    although the CORS policy lists PUT, because the API branch's method
    matcher does not. *)
Theorem put_never_reaches_api c api req :
  StartRestApi c = true ->
  Method req = MethodPut ->
  cleanPath (Path req) = Path req ->
  strings.HasPrefix (Path req) "/api/" = true ->
  (Router_handler (rBase c api) req = methodNotAllowedHandler \/
   Router_handler (rBase c api) req = NotFoundHandler) /\
  MethodPut ∈ cors.AllowedMethods (corsOptions c) /\
  MethodPut ∉ apiMethods.
Proof.
  intros He Hm Hc Hp.
  assert (Hn : matchInArray apiMethods (Method req) = false) by (rewrite Hm; reflexivity).
  split; [|split].
  - rewrite (dispatch c api req Hc), He, Hp, (api_not_ui _ Hp), andb_false_r. cbn [andb].
    rewrite (apiResponse_disallowed c api req Hn). destruct (is_err _ _); auto.
  - unfold corsOptions, MethodPut. cbn. set_solver.
  - unfold apiMethods, MethodPut. rewrite !elem_of_cons, elem_of_nil.
    intros [?|[?|[?|[?|[]]]]]; discriminate.
Qed.

Context {collab : Collaborators}.

(** C2 (as amended): when rBase finds a route for the request and the
    handler does not panic, serving the request appends the handler's
    events, none of them a log line, and then one log line with the
    request's method and URI and the time the handler took; otherwise
    (no route found, or a panic) no log line is written. *)
Theorem logger_line_when_routed c api req w :
  let res := serveRequest c api req w in
  if routed (Router_handler (rBase c api) req) && negb res.2
  then exists t,
         trace res.1 =
         (trace w ++ t ++ [LogPrintf (Method req) (RequestURI req) (now res.1 - now w)%N])%list /\
         logLines t = [] /\ (now w <= now res.1)%N
  else logLines (trace res.1) = logLines (trace w).
Proof.
  cbv zeta. unfold serveRequest.
  destruct (handler_shape c api req) as [(inner & -> & Hf) | [Hr Hf]].
  - cbn [routed andb ServeHTTP].
    destruct (ServeHTTP_loggerFree inner Hf req w) as (t & E & [L _] & N).
    destruct (ServeHTTP inner req w) as [w1 []]; cbn [fst snd negb emit trace now] in *.
    + rewrite E, logLines_app, L, app_nil_r. reflexivity.
    + exists t. rewrite E, <- app_assoc. auto.
  - rewrite Hr. cbn [andb].
    destruct (ServeHTTP_loggerFree _ Hf req w) as (t & E & [L _] & N).
    rewrite E, logLines_app, L, app_nil_r. reflexivity.
Qed.

(** C8: Serve binds the listener once, on [":" ++ port]; the connections
    that arrive are served by rBase, each by its own goroutine; Serve ends
    by logging the error of ListenAndServe and leaving the process with
    status 1.  Whatever the scheduler does, nothing but the events of
    requests is written in between: no second listener is bound, and when
    the listener cannot be bound nothing is served.  When the goroutines
    run one after the other, each to its end, the connections are served as
    rBase.ServeHTTP serves their requests, a panic being recovered and
    logged. *)
Theorem listener_failure_is_fatal c api net conns err w :
  (exists before after,
     trace (Serve c api net w) =
     (trace w ++ ListenTCP (":" ++ strconv.Itoa (LocalPort c)) :: before ++
      LogFatal (listenError net) :: after ++ [OsExit 1])%list /\
     Forall (fun e => requestEvent e = true) (before ++ after) /\
     match bindError net with Some _ => before = [] /\ after = [] | None => True end) /\
  Serve c api (unhurried c api conns err) w =
  emit (OsExit 1)
    (emit (LogFatal err)
       (fold_left (fun w requests => conn_serve (serveRequest c api) requests w) conns
          (emit (ListenTCP (":" ++ strconv.Itoa (LocalPort c))) w))).
Proof.
  split.
  - destruct (Serve_trace c api net w) as (before & after & E & F & B & _).
    exists before, after. auto.
  - pose proof (oneByOne_run c api conns []
                  (emit (ListenTCP (":" ++ strconv.Itoa (LocalPort c))) w)) as H.
    cbn [length app] in H.
    unfold Serve, ListenAndServe, log_Fatal, unhurried.
    cbn [bindError arrivals schedule lastSteps acceptError fst snd runSchedule].
    rewrite H. reflexivity.
Qed.

End Claims.

(** C3: the CORS policy of Serve allows the one origin [FrontEndServer],
    the methods GET, POST, OPTIONS, DELETE and PUT and no other, and
    credentials; it does not depend on any other field of the
    configuration, and it is the policy of the middleware of the API
    subrouter. *)
Theorem cors_policy c api port dist startApi startUi :
  cors.AllowedOrigins (corsOptions c) = [FrontEndServer c] /\
  (forall m, m ∈ cors.AllowedMethods (corsOptions c) <->
             m = "GET" \/ m = "POST" \/ m = "OPTIONS" \/ m = "DELETE" \/ m = "PUT") /\
  length (cors.AllowedMethods (corsOptions c)) = 5%nat /\
  cors.AllowCredentials (corsOptions c) = true /\
  corsOptions (mkWebConfig port dist (FrontEndServer c) startApi startUi) = corsOptions c /\
  middlewares (rApi c api) = [CorsHandler (corsOptions c)].
Proof.
  split; [reflexivity|]. split.
  - intros m. unfold corsOptions. cbn [cors.AllowedMethods].
    unfold MethodGet, MethodPost, MethodOptions, MethodDelete, MethodPut.
    rewrite !elem_of_cons, elem_of_nil. tauto.
  - split; [reflexivity|]. split; [reflexivity|]. split; [reflexivity|].
    rewrite rApi_shape. reflexivity.
Qed.

(** C5 (as amended): [-port=] followed by the decimal text of a port [p]
    in (0, 65536) gives a configuration with [LocalPort = p]; a value that
    strconv.ParseInt refuses ends the process with status 2, and every
    value it accepts becomes the port, positive or not. *)
Theorem ParseArgs_port p v :
  0 < p < 65536 ->
  result (ParseArgs (start [portArg (strconv.Itoa p)])) = Some (withPort p) /\
  match strconv.ParseInt v 0 strconv.IntSize with
  | (z, None) => result (ParseArgs (start [portArg v])) = Some (withPort z)
  | (_, Some _) => exists p', ParseArgs (start [portArg v]) = Exited 2 p'
  end.
Proof.
  intros Hp. split; [|apply ParseArgs_port_value].
  pose proof (ParseArgs_port_value (strconv.Itoa p)) as H.
  rewrite ParseInt_Itoa in H; [exact H|].
  change (2 ^ 63) with 9223372036854775808. lia.
Qed.

(** C6: without arguments ParseArgs returns the defaults of the five
    flags. *)
Theorem ParseArgs_defaults :
  result (ParseArgs (start [])) =
  Some {| LocalPort := 8080; UIDistPath := ""; FrontEndServer := "http://localhost:8001";
          StartRestApi := true; StartWebUI := true |}.
Proof.
  unfold_flags. run. unfold_parse. run. unfold_config. run. reflexivity.
Qed.


(** ** Instances and counterexamples *)

Lemma disabled_branch_not_found_witness :
  enabled uiDisabled WebUI = false /\
  @Router_handler mux_v1_8_1 (@rBase mux_v1_8_1 uiDisabled sampleApi)
    (request "GET" "/ui/index.html") = NotFoundHandler.
Proof.
  split; [reflexivity|].
  apply (@disabled_branch_not_found mux_v1_8_1 uiDisabled sampleApi
           (request "GET" "/ui/index.html") WebUI); reflexivity.
Defined.

(** C1 as stated fails: with the Web UI disabled, a path under [/ui/] that
    is not in canonical form is answered by a redirect (301), not by
    not-found. *)
Lemma noncanonical_path_redirected :
  StartWebUI uiDisabled = false /\
  strings.HasPrefix "/ui//index.html" "/ui/" = true /\
  @Router_handler mux_v1_8_0 (@rBase mux_v1_8_0 uiDisabled sampleApi)
    (request "GET" "/ui//index.html") = RedirectHandler "/ui/index.html" 301 /\
  @Router_handler mux_v1_8_1 (@rBase mux_v1_8_1 uiDisabled sampleApi)
    (request "GET" "/ui//index.html") = RedirectHandler "/ui/index.html" 301.
Proof. repeat split; reflexivity. Qed.

(** C2 as stated fails: a request that matches no route is answered
    without a log line. *)
Lemma unrouted_request_not_logged :
  logLines (trace (@serveRequest mux_v1_8_0 idle defaultConfig sampleApi
                     (request "GET" "/nothing") epoch).1) = [] /\
  logLines (trace (@serveRequest mux_v1_8_1 idle defaultConfig sampleApi
                     (request "GET" "/nothing") epoch).1) = [] /\
  trace (@serveRequest mux_v1_8_1 idle defaultConfig sampleApi
           (request "GET" "/nothing") epoch).1 = [WriteHeader 404 ""].
Proof. repeat split; reflexivity. Qed.

Lemma disallowed_method_response_witness :
  enabled defaultConfig WebUI = true /\
  cleanPath "/ui/index.html" = "/ui/index.html" /\
  strings.HasPrefix "/ui/index.html" "/ui/" = true /\
  matchInArray uiMethods "PUT" = false /\
  @Router_handler mux_v1_8_1 (@rBase mux_v1_8_1 defaultConfig sampleApi)
    (request "PUT" "/ui/index.html") = methodNotAllowedHandler.
Proof.
  repeat (split; [reflexivity|]).
  apply (@disallowed_method_response mux_v1_8_1 defaultConfig sampleApi
           (request "PUT" "/ui/index.html") WebUI); reflexivity.
Defined.

(** C4 as stated fails: PATCH is outside the API branch's list, and a
    PATCH request for a path under [/api/] that no registered route has is
    answered by not-found. *)
Lemma disallowed_method_not_found :
  StartRestApi defaultConfig = true /\
  strings.HasPrefix "/api/unknown" "/api/" = true /\
  matchInArray apiMethods "PATCH" = false /\
  @Router_handler mux_v1_8_0 (@rBase mux_v1_8_0 defaultConfig sampleApi)
    (request "PATCH" "/api/unknown") = NotFoundHandler /\
  @Router_handler mux_v1_8_1 (@rBase mux_v1_8_1 defaultConfig sampleApi)
    (request "PATCH" "/api/unknown") = NotFoundHandler.
Proof. repeat split; reflexivity. Qed.

Lemma ParseArgs_port_witness :
  0 < 8080 < 65536 /\
  result (ParseArgs (start [portArg (strconv.Itoa 8080)])) = Some (withPort 8080) /\
  match strconv.ParseInt "http" 0 strconv.IntSize with
  | (z, None) => result (ParseArgs (start [portArg "http"])) = Some (withPort z)
  | (_, Some _) => exists p', ParseArgs (start [portArg "http"]) = Exited 2 p'
  end.
Proof.
  split; [lia|]. apply (ParseArgs_port 8080 "http"). lia.
Defined.

(** C5 as stated fails: [-port=0] and [-port=-5] are accepted, and the
    configuration returned has a port that is not positive. *)
Lemma ParseArgs_accepts_port_zero :
  result (ParseArgs (start ["-port=0"])) = Some (withPort 0) /\
  result (ParseArgs (start ["-port=-5"])) = Some (withPort (-5)).
Proof.
  split.
  - exact (ParseArgs_port_value "0").
  - exact (ParseArgs_port_value "-5").
Qed.



Lemma put_never_reaches_api_witness :
  StartRestApi defaultConfig = true /\
  cleanPath "/api/list-apps" = "/api/list-apps" /\
  strings.HasPrefix "/api/list-apps" "/api/" = true /\
  (@Router_handler mux_v1_8_1 (@rBase mux_v1_8_1 defaultConfig sampleApi)
     (request "PUT" "/api/list-apps") = methodNotAllowedHandler \/
   @Router_handler mux_v1_8_1 (@rBase mux_v1_8_1 defaultConfig sampleApi)
     (request "PUT" "/api/list-apps") = NotFoundHandler).
Proof.
  repeat (split; [reflexivity|]).
  apply (@put_never_reaches_api mux_v1_8_1 defaultConfig sampleApi
           (request "PUT" "/api/list-apps")); reflexivity.
Defined.

(** C10 as stated fails: a PUT request for a path under [/api/] that no
    registered route has is answered by not-found, not by
    method-not-allowed. *)
Lemma put_unknown_path_not_found :
  StartRestApi defaultConfig = true /\
  strings.HasPrefix "/api/unknown" "/api/" = true /\
  @Router_handler mux_v1_8_0 (@rBase mux_v1_8_0 defaultConfig sampleApi)
    (request "PUT" "/api/unknown") = NotFoundHandler /\
  @Router_handler mux_v1_8_1 (@rBase mux_v1_8_1 defaultConfig sampleApi)
    (request "PUT" "/api/unknown") = NotFoundHandler.
Proof. repeat split; reflexivity. Qed.


(** * Further properties of ParseArgs *)

(** X1: [-front_address=v] and [-webui_path=v] set [FrontEndServer] and
    [UIDistPath] to [v], whatever the text [v] is, and leave the other
    fields at their defaults. *)
Theorem ParseArgs_string_flags v :
  result (ParseArgs (start ["-front_address=" ++ v])) =
    Some {| LocalPort := 8080; UIDistPath := ""; FrontEndServer := v;
            StartRestApi := true; StartWebUI := true |} /\
  result (ParseArgs (start ["-webui_path=" ++ v])) =
    Some {| LocalPort := 8080; UIDistPath := v; FrontEndServer := "http://localhost:8001";
            StartRestApi := true; StartWebUI := true |}.
Proof.
  spell. split.
  - unfold_flags. run. unfold_parse. run. unfold_config. run. reflexivity.
  - unfold_flags. run. unfold_parse. run. unfold_config. run. reflexivity.
Qed.

(** X2: [-start_webui=v] and [-start_restapi=v] go through
    strconv.ParseBool: a value it accepts becomes the field, the other
    fields keeping their defaults; a value it refuses ends the process with
    status 2. *)
Theorem ParseArgs_bool_flags v :
  match strconv.ParseBool v with
  | (b, None) =>
      result (ParseArgs (start ["-start_webui=" ++ v])) =
        Some {| LocalPort := 8080; UIDistPath := ""; FrontEndServer := "http://localhost:8001";
                StartRestApi := true; StartWebUI := b |} /\
      result (ParseArgs (start ["-start_restapi=" ++ v])) =
        Some {| LocalPort := 8080; UIDistPath := ""; FrontEndServer := "http://localhost:8001";
                StartRestApi := b; StartWebUI := true |}
  | (_, Some _) =>
      (exists p', ParseArgs (start ["-start_webui=" ++ v]) = Exited 2 p') /\
      (exists p', ParseArgs (start ["-start_restapi=" ++ v]) = Exited 2 p')
  end.
Proof.
  spell. destruct (strconv.ParseBool v) as [b [e|]] eqn:E.
  - split; eexists; unfold_flags; run; unfold_parse; run; rewrite E; run;
      destruct e; reflexivity.
  - split; unfold_flags; run; unfold_parse; run; rewrite E; run; unfold_config; run;
      reflexivity.
Qed.

(** X3: flag parsing stops at the first argument that is not a flag, or
    at [--]: ParseArgs returns the defaults whatever follows. *)
Theorem positional_argument_ends_flags a rest :
  positional a = true \/ a = "--" ->
  result (ParseArgs (start (a :: rest))) = Some defaultConfig.
Proof.
  intros [Ha | ->].
  - unfold_flags. run. unfold_parse. run.
    destruct a as [|c0 [|c1 tail]]; run; try (unfold_config; run; reflexivity).
    simpl in Ha. rewrite Ha. run. unfold_config. run. reflexivity.
  - unfold_flags. run. unfold_parse. run. unfold_config. run. reflexivity.
Qed.

(** X4: a boolean flag does not take the next argument as its value:
    after [-start_webui] or [-start_restapi] a following word such as
    [false] ends the parsing, and the branch stays enabled. *)
Theorem bool_flag_takes_no_argument v rest :
  positional v = true ->
  result (ParseArgs (start ("-start_webui" :: v :: rest))) = Some defaultConfig /\
  result (ParseArgs (start ("-start_restapi" :: v :: rest))) = Some defaultConfig.
Proof.
  intros Hv. split.
  - unfold_flags. run. unfold_parse. run.
    destruct v as [|c0 [|c1 tail]]; run; try (unfold_config; run; reflexivity).
    simpl in Hv. rewrite Hv. run. unfold_config. run. reflexivity.
  - unfold_flags. run. unfold_parse. run.
    destruct v as [|c0 [|c1 tail]]; run; try (unfold_config; run; reflexivity).
    simpl in Hv. rewrite Hv. run. unfold_config. run. reflexivity.
Qed.

Lemma declaredFlags_kinds name :
  declared !! name = None -> declaredFlags !! name = None.
Proof.
  intros H. change declared with ((fun fl => kind_of (Val fl)) <$> declaredFlags) in H.
  rewrite lookup_fmap in H. destruct (declaredFlags !! name); [discriminate | reflexivity].
Qed.

(** X5: a flag that ParseArgs does not declare ends the process: with
    status 0 and the usage text for [-h] and [-help], with status 2, the
    error and the usage text for any other name. *)
Theorem unknown_flag_exits name rest :
  flagset.bad_syntax name = false ->
  flagset.split_value name = (name, None) ->
  declared !! name = None ->
  exists p',
    ParseArgs (start (("-" ++ name) :: rest)) =
      Exited (if bool_decide (name = "help") || bool_decide (name = "h") then 0 else 2) p' /\
    Stderr p' =
      if bool_decide (name = "help") || bool_decide (name = "h") then ["Usage:"]
      else ["flag provided but not defined: -" ++ name; "Usage:"].
Proof.
  intros Hb Hs Hd. apply declaredFlags_kinds in Hd. spell.
  destruct name as [|c1 tail]; [discriminate|].
  cbn [flagset.bad_syntax] in Hb. apply orb_false_elim in Hb as [Hb1 Hb2].
  cbn [flagset.split_value] in Hs.
  destruct (flagset.cut_eq tail) as [[n v]|] eqn:Hc; [discriminate|].
  unfold_flags. run. unfold_parse. run. rewrite Hb1. run. rewrite Hb1. run.
  rewrite Hc. run. rewrite Hb2.
  match goal with |- context [?m !! String c1 tail] => change m with declaredFlags end.
  rewrite Hd. run.
  destruct (bool_decide (String c1 tail = "help") || bool_decide (String c1 tail = "h"));
    eexists; split; reflexivity.
Qed.

(** * Further properties of strconv *)

Section DecimalExtras.
Import strconv.

Lemma ParseUint_formatBits n :
0 < n <= 2 ^ 63 -> ParseUint (formatBits 20 n "") 0 IntSize = (n, None).
Proof.
intros Hn. change (2 ^ 63) with 9223372036854775808 in Hn.
assert (Hr : n < 10 ^ Z.of_nat 20)
  by (change (10 ^ Z.of_nat 20) with 100000000000000000000; lia).
destruct (formatBits_head 20 n "" ltac:(lia) Hr) as (d & rest & E & Hd).
pose proof (parse_formatBits true (maxUint64 / 10 + 1) (2 ^ 64 - 1) 20 n "" false) as P.
rewrite E in P. unfold ParseUint. rewrite E.
assert (C : Ascii.eqb (digit d) "0" = false).
{ assert (Hd' : 0 <= d <= 9) by lia.
  destruct (digit_cases _ Hd') as [->|[->|[->|[->|[->|[->|[->|[->|[->| ->]]]]]]]]];
    try lia; reflexivity. }
rewrite C.
change (0 =? 0) with true. change ((2 <=? 0) && (0 <=? 36)) with false. cbv iota.
change ((IntSize <? 0) || (64 <? IntSize)) with false. cbv iota.
change (IntSize =? 0) with false. cbv iota. change IntSize with 64.
rewrite P; try (unfold maxUint64; change (2 ^ 64) with 18446744073709551616; lia).
reflexivity.
Qed.

(** X6: every 64-bit [int], which is every port ParseArgs can return, is
  printed by strconv.Itoa as a text that the port flag reads back as the
  same number. *)
Theorem Itoa_ParseInt_roundtrip p :
- 2 ^ 63 <= p < 2 ^ 63 -> ParseInt (Itoa p) 0 IntSize = (p, None).
Proof.
intros Hp. change (2 ^ 63) with 9223372036854775808 in Hp.
destruct (Z.lt_trichotomy p 0) as [Hneg | [-> | Hpos]].
- unfold Itoa. replace (p <? 0) with true by lia.
  unfold ParseInt. cbn [Ascii.eqb Bool.eqb]. cbv iota.
  rewrite ParseUint_formatBits by (change (2 ^ 63) with 9223372036854775808; lia).
  change (IntSize =? 0) with false. cbv iota. change (2 ^ (IntSize - 1)) with 9223372036854775808.
  cbn [negb andb]. replace (9223372036854775808 <? - p) with false by lia.
  rewrite Z.opp_involutive. reflexivity.
- reflexivity.
- apply ParseInt_Itoa. change (2 ^ 63) with 9223372036854775808. lia.
Qed.

End DecimalExtras.


(** * Further properties of the router *)

Section RoutingExtras.
Context {release : Release}.

(** X8: the file server is entered only by GET requests under [/ui/]
    with the Web UI enabled, a registered API handler only behind the CORS
    middleware, under [/api/], with a method of the API branch's list and
    the REST API enabled; every other request gets one of the router's own
    answers: the redirect to the clean path, method-not-allowed or
    not-found. *)
Theorem routing_sound c api req :
  let h := Router_handler (rBase c api) req in
  (cleanPath (Path req) <> Path req /\
   h = RedirectHandler (cleanPath (Path req)) StatusMovedPermanently) \/
  (cleanPath (Path req) = Path req /\
   ((h = Logger (StripPrefix "/ui/" (FileServer (UIDistPath c))) /\
     StartWebUI c = true /\ strings.HasPrefix (Path req) "/ui/" = true /\
     Method req = "GET") \/
    (exists h', h = Logger (CorsHandler (corsOptions c) h') /\ leaf h' /\
     StartRestApi c = true /\ strings.HasPrefix (Path req) "/api/" = true /\
     Method req ∈ apiMethods) \/
    h = methodNotAllowedHandler \/ h = NotFoundHandler)).
Proof.
  cbv zeta. rewrite handler_cases.
  pose proof (apiResponse_cases c api req) as PA. cbv zeta in PA.
  pose proof (uiResponse_cases c req) as PU.
  case_bool_decide as Hc; [right; split; [exact Hc|] | left; split; [exact Hc | reflexivity]].
  destruct (StartWebUI c && strings.HasPrefix (Path req) "/ui/") eqn:Hui.
  - apply andb_prop in Hui as [Hu Hp].
    destruct PU as [[-> Hm]|[->| ->]]; [left | right; right; left | right; right; right];
      try reflexivity.
    split; [reflexivity|]. split; [exact Hu|]. split; [exact Hp|].
    unfold matchInArray, uiMethods in Hm. apply bool_decide_eq_true_1 in Hm.
    apply list_elem_of_singleton in Hm. exact Hm.
  - destruct (StartRestApi c && strings.HasPrefix (Path req) "/api/") eqn:Hapi;
      [|right; right; right; reflexivity].
    apply andb_prop in Hapi as [Ha Hp].
    destruct PA as [(Hm & h' & -> & L)|[->| ->]];
      [right; left | right; right; left | right; right; right]; try reflexivity.
    exists h'. repeat split; try assumption.
    apply bool_decide_eq_true_1 in Hm. exact Hm.
Qed.

(** X9: the two branches do not interfere: the answer to a path under
    [/ui/] does not depend on the routes SetupRouter registers, and the
    answer to a path under [/api/] depends neither on the port, nor on
    [UIDistPath], nor on [StartWebUI]. *)
Theorem branches_independent c api api' port dist ui req :
  (strings.HasPrefix (Path req) "/ui/" = true ->
   Router_handler (rBase c api) req = Router_handler (rBase c api') req) /\
  (strings.HasPrefix (Path req) "/api/" = true ->
   Router_handler (rBase (mkWebConfig port dist (FrontEndServer c) (StartRestApi c) ui) api) req =
   Router_handler (rBase c api) req).
Proof.
  split; intros Hp; rewrite !handler_cases.
  - rewrite (ui_not_api _ Hp), !andb_false_r. reflexivity.
  - rewrite (api_not_ui _ Hp), !andb_false_r. cbn [StartRestApi StartWebUI andb].
    rewrite !rApi_shape. reflexivity.
Qed.

End RoutingExtras.

(** ** cleanPath *)

Section CleanPath.

Lemma noSlash_app a b : noSlash (a ++ b) = noSlash a && noSlash b.
Proof.
induction a as [|x a IH]; [reflexivity|]. rewrite append_cons. cbn [noSlash].
rewrite IH, andb_assoc. reflexivity.
Qed.

Lemma split_slash_noSlash s : forall cur,
noSlash cur = true -> Forall (fun e => noSlash e = true) (split_slash s cur).
Proof.
induction s as [|c s IH]; intros cur Hc; cbn [split_slash].
- constructor; [exact Hc | constructor].
- destruct (Ascii.eqb c "/") eqn:E.
  + constructor; [exact Hc | apply IH; reflexivity].
  + apply IH. rewrite noSlash_app, Hc. cbn [noSlash andb]. rewrite E. reflexivity.
Qed.

Lemma Forall_removelast {A} (P : A -> Prop) l : Forall P l -> Forall P (removelast l).
Proof.
induction 1 as [|x l Hx Hl IH]; [constructor|].
cbn. destruct l; [constructor|]. constructor; assumption.
Qed.

Lemma cleanElements_elements elems :
Forall (fun e => noSlash e = true) elems -> Forall element (cleanElements elems).
Proof.
unfold cleanElements. intros H.
assert (G : forall kept, Forall element kept ->
          Forall element
            (fold_left
               (fun (kept : list string) (e : string) =>
                  if bool_decide (e = "") || bool_decide (e = ".") then kept
                  else if bool_decide (e = "..") then removelast kept
                  else (kept ++ [e])%list) elems kept)).
{ induction H as [|e elems He _ IH]; intros kept Hk; cbn [fold_left]; [exact Hk|].
  apply IH. repeat case_bool_decide; cbn [orb]; try exact Hk.
  - apply Forall_removelast, Hk.
  - apply Forall_app. split; [exact Hk|]. constructor; [|constructor].
    repeat split; assumption. }
apply G. constructor.
Qed.

Lemma split_slash_element e rest cur :
noSlash e = true -> split_slash (e ++ rest) cur = split_slash rest (cur ++ e).
Proof.
revert cur. induction e as [|c e IH]; intros cur H.
- rewrite append_nil, string_app_nil_r. reflexivity.
- cbn [noSlash] in H. apply andb_prop in H as [H1 H2]. apply negb_true_iff in H1.
  rewrite append_cons. cbn [split_slash]. rewrite H1.
  rewrite IH by exact H2. rewrite string_app_assoc. reflexivity.
Qed.

Lemma split_slash_joinRooted elems : forall cur,
Forall element elems -> split_slash (joinRooted elems) cur = cur :: elems.
Proof.
induction elems as [|e rest IH]; intros cur H; [reflexivity|].
inversion H as [|? ? He Hr]; subst. cbn [joinRooted].
rewrite append_cons, append_nil. cbn [split_slash Ascii.eqb Bool.eqb].
rewrite split_slash_element by apply He. rewrite append_nil, IH by exact Hr. reflexivity.
Qed.

Lemma split_slash_joinRooted_slash elems : forall cur,
Forall element elems ->
split_slash (joinRooted elems ++ "/") cur = (cur :: elems ++ [""])%list.
Proof.
induction elems as [|e rest IH]; intros cur H; [reflexivity|].
inversion H as [|? ? He Hr]; subst. cbn [joinRooted].
rewrite !append_cons, !append_nil. cbn [split_slash Ascii.eqb Bool.eqb].
rewrite string_app_assoc, split_slash_element by apply He.
rewrite append_nil, IH by exact Hr. reflexivity.
Qed.

Lemma cleanElements_keeps elems tail :
Forall element elems -> tail = [] \/ tail = [""] ->
cleanElements ("" :: elems ++ tail) = elems.
Proof.
intros H Ht. unfold cleanElements. cbn [fold_left bool_decide orb].
rewrite bool_decide_eq_true_2 by reflexivity. cbn [orb].
rewrite fold_left_app.
assert (G : forall kept,
          fold_left
            (fun (kept : list string) (e : string) =>
               if bool_decide (e = "") || bool_decide (e = ".") then kept
               else if bool_decide (e = "..") then removelast kept
               else (kept ++ [e])%list) elems kept = (kept ++ elems)%list).
{ induction H as [|e elems (Hs & H1 & H2 & H3) _ IH]; intros kept; cbn [fold_left].
  - rewrite app_nil_r. reflexivity.
  - rewrite !bool_decide_eq_false_2 by assumption. cbn [orb].
    rewrite IH, <- app_assoc. reflexivity. }
rewrite G. destruct Ht as [-> | ->]; reflexivity.
Qed.

Lemma noSlash_last e c :
noSlash e = true -> strings.last_byte e = Some c -> Ascii.eqb "/" c = false.
Proof.
induction e as [|x e IH]; intros H L; [discriminate L|].
cbn [noSlash] in H. apply andb_prop in H as [H1 H2]. cbn [strings.last_byte] in L.
destruct e as [|y e'].
- injection L as <-. apply negb_true_iff in H1. rewrite Ascii.eqb_sym. exact H1.
- apply IH; assumption.
Qed.

Lemma element_last e :
element e -> exists c, strings.last_byte e = Some c /\ Ascii.eqb "/" c = false.
Proof.
intros (Hs & Hn & _). destruct e as [|x e']; [contradiction|].
destruct (last_byte_some x e') as (c & L).
exists c. split; [exact L | eapply noSlash_last; eauto].
Qed.

Lemma joinRooted_last elems :
Forall element elems -> elems <> [] ->
exists c, strings.last_byte (joinRooted elems) = Some c /\ Ascii.eqb "/" c = false.
Proof.
induction 1 as [|e rest He Hr IH]; intros Hne; [contradiction|].
cbn [joinRooted]. rewrite <- string_app_assoc, last_byte_app.
destruct rest as [|e' rest'].
- cbn [joinRooted strings.last_byte]. rewrite last_byte_app.
  destruct (element_last e He) as (c & -> & Hc). eauto.
- destruct (IH ltac:(discriminate)) as (c & -> & Hc). eauto.
Qed.

Lemma joinRooted_head elems :
Forall element elems -> elems <> [] ->
exists c rest, joinRooted elems = String "/" (String c rest).
Proof.
intros H Hne. destruct H as [|e rest (Hs & Hn & _) Hr]; [contradiction|].
destruct e as [|c e']; [contradiction|]. cbn [joinRooted].
rewrite !append_cons, append_nil. eauto.
Qed.

(** The path that Router.ServeHTTP redirects to is in canonical form. *)
Lemma cleanPath_idempotent p : cleanPath (cleanPath p) = cleanPath p.
Proof.
remember (cleanPath p) as q eqn:Eq. unfold cleanPath in Eq.
case_bool_decide as Hp; [subst q; reflexivity|].
set (p' := if strings.HasPrefix p "/" then p else ("/" ++ p)%string) in Eq.
unfold path_Clean in Eq.
pose proof (cleanElements_elements (split_slash p' "")
              (split_slash_noSlash p' "" eq_refl)) as He.
destruct (cleanElements (split_slash p' "")) as [|e rest] eqn:E.
- rewrite bool_decide_eq_true_2 in Eq by reflexivity. rewrite andb_false_r in Eq.
  subst q. reflexivity.
- set (elems := e :: rest) in *.
  assert (Hne : elems <> []) by discriminate.
  destruct (joinRooted_head elems He Hne) as (c & tl & Hj).
  destruct (joinRooted_last elems He Hne) as (l & Hl & Hs).
  change (match elems with [] => "/" | _ :: _ => joinRooted elems end)
    with (joinRooted elems) in Eq.
  assert (Hroot : bool_decide (joinRooted elems = "/") = false)
    by (apply bool_decide_eq_false_2; rewrite Hj; discriminate).
  rewrite Hroot in Eq. cbn [negb] in Eq. rewrite andb_true_r in Eq.
  assert (Hq : forall tail sfx,
             (tail = [] /\ sfx = "" \/ tail = [""] /\ sfx = "/") ->
             cleanPath (joinRooted elems ++ sfx) = (joinRooted elems ++ sfx)%string).
  { intros tail sfx Ht. unfold cleanPath.
    rewrite bool_decide_eq_false_2 by (rewrite Hj, append_cons; discriminate).
    replace (strings.HasPrefix (joinRooted elems ++ sfx) "/") with true
      by (rewrite Hj, append_cons; reflexivity).
    unfold path_Clean.
    replace (split_slash (joinRooted elems ++ sfx) "") with ("" :: elems ++ tail)%list.
    2:{ destruct Ht as [[-> ->] | [-> ->]].
        - rewrite string_app_nil_r, app_nil_r, split_slash_joinRooted by exact He.
          reflexivity.
        - rewrite split_slash_joinRooted_slash by exact He. reflexivity. }
    rewrite (cleanElements_keeps elems tail He) by (destruct Ht as [[-> _] | [-> _]]; auto).
    change (match elems with [] => "/" | s :: l0 => joinRooted (s :: l0) end)
      with (joinRooted elems).
    rewrite Hroot. cbn [negb]. rewrite andb_true_r.
    unfold strings.HasSuffixByte. rewrite last_byte_app.
    destruct Ht as [[-> ->] | [-> ->]].
    - cbn [strings.last_byte]. rewrite Hl, Hs, string_app_nil_r. reflexivity.
    - reflexivity. }
  destruct (strings.HasSuffixByte p' "/"); subst q.
  + apply (Hq [""]). auto.
  + rewrite <- (string_app_nil_r (joinRooted elems)). apply (Hq []). auto.
Qed.

End CleanPath.

(** * Further properties of serving *)

Section ServingExtras.
Context {release : Release} {collab : Collaborators}.

(** X11: whatever the scheduler does, the log lines that Serve adds are
    lines of requests that rBase finds a route for, at most one for each
    such request, with the request's method and URI: as pairs of method and
    URI they are contained, with multiplicity, in those of the routed
    requests that arrived. *)
Theorem server_log_one_line_per_routed_request c api net w :
  exists lines,
    logLines (trace (Serve c api net w)) = (logLines (trace w) ++ lines)%list /\
    (fun l : string * string * N => (l.1.1, l.1.2)) <$> lines ⊆+
    routedPairs c api (concat (arrivals net)).
Proof.
  destruct (Serve_trace c api net w) as (before & after & E & _ & _ & S).
  exists (logLines before ++ logLines after)%list. split.
  - rewrite E. change (?x :: ?l ++ ?y :: ?k ++ ?z)%list
      with ([x] ++ l ++ [y] ++ k ++ z)%list.
    rewrite !logLines_app. cbn. rewrite app_nil_r. reflexivity.
  - rewrite fmap_app. exact S.
Qed.

Lemma drop_prefix_length q : forall p,
  strings.HasPrefix p q = true ->
  (String.length (strings.drop (String.length q) p) + String.length q = String.length p)%nat.
Proof.
  unfold strings.HasPrefix. induction q as [|a q IH]; intros p H; cbn [String.length strings.drop].
  - lia.
  - destruct p as [|b p]; [discriminate H|].
    rewrite String_prefix_cons in H. destruct (ascii_dec a b); [|discriminate H].
    cbn [String.length]. specialize (IH p H). lia.
Qed.

Lemma drop_prefix_shorter p :
  strings.HasPrefix p "/ui/" = true ->
  strings.TrimPrefix p "/ui/" = strings.drop 4 p /\
  (strings.len (strings.drop 4 p) <? strings.len p) = true.
Proof.
  intros H. unfold strings.TrimPrefix. rewrite H. split; [reflexivity|].
  pose proof (drop_prefix_length "/ui/" p H) as L. cbn [String.length] in L.
  unfold strings.len. apply Z.ltb_lt. lia.
Qed.

(** X10: a GET request for a canonical path under [/ui/] is served by the
    file server rooted at [UIDistPath], on the path relative to [/ui/],
    whatever SetupRouter registers, and logged with the time the file
    server took; when the file server panics no line is logged. *)
Theorem ui_request_served c api req w :
  StartWebUI c = true ->
  Method req = "GET" ->
  cleanPath (Path req) = Path req ->
  strings.HasPrefix (Path req) "/ui/" = true ->
  RawPath req = "" ->
  let b := fileServer (UIDistPath c) (withPath req (strings.drop 4 (Path req)) "") in
  serveRequest c api req w =
  if panics b then perform b w
  else (emit (LogPrintf "GET" (RequestURI req) (elapsed b)) (perform b w).1, false).
Proof.
  intros Hu Hm Hc Hp Hr. cbv zeta. unfold serveRequest.
  rewrite (dispatch c api req Hc), Hu, Hp. cbn [andb]. unfold uiResponse.
  rewrite Hm. cbn [matchInArray]. 
  replace (matchInArray uiMethods "GET") with true by reflexivity.
  unfold uiHandler. cbn [ServeHTTP].
  rewrite bool_decide_eq_false_2 by discriminate.
  destruct (drop_prefix_shorter _ Hp) as [-> ->]. rewrite Hr.
  cbn [andb orb bool_decide]. rewrite bool_decide_eq_true_2 by reflexivity. cbn [orb].
  change (strings.TrimPrefix "" "/ui/") with "".
  set (b := fileServer _ _). unfold perform. cbn [fst snd].
  destruct (panics b); [reflexivity|].
  unfold emit. cbn [now trace]. rewrite Hm.
  replace (now w + elapsed b - now w)%N with (elapsed b) by lia. reflexivity.
Qed.

End ServingExtras.

Section RedirectExtras.
Context {release : Release}.

(** X12: the path of the router's clean-path redirect is in canonical form:
    cleaning it again changes nothing, so the request for it is not
    answered by that redirect a second time but goes to the routes, whose
    answer is the one of a canonical path under [/ui/], under [/api/], or
    elsewhere.  (A route registered under [/api/] may still answer with
    its own strict-slash redirect, behind Logger and the CORS middleware.) *)
Theorem clean_redirect_target_is_dispatched c api req u code :
  let req' := withPath req (cleanPath (Path req)) (RawPath req) in
  cleanPath (Path req') = Path req' /\
  Router_handler (rBase c api) req' =
    (if StartWebUI c && strings.HasPrefix (Path req') "/ui/" then uiResponse c req'
     else if StartRestApi c && strings.HasPrefix (Path req') "/api/"
     then apiResponse (Router_Match (rApi c api) req' noMatch)
     else NotFoundHandler) /\
  Router_handler (rBase c api) req' <> RedirectHandler u code.
Proof.
  cbv zeta. set (req' := withPath req (cleanPath (Path req)) (RawPath req)).
  assert (Hc : cleanPath (Path req') = Path req') by apply cleanPath_idempotent.
  split; [exact Hc|]. split; [apply dispatch, Hc|].
  rewrite (dispatch c api req' Hc).
  pose proof (apiResponse_cases c api req') as PA. cbv zeta in PA.
  pose proof (uiResponse_cases c req') as PU.
  destruct (_ && _).
  - destruct PU as [[-> _]|[->| ->]]; discriminate.
  - destruct (_ && _); [|discriminate].
    destruct PA as [(_ & h' & -> & _)|[->| ->]]; discriminate.
Qed.

End RedirectExtras.

(** * From the command line to the server *)

(** X7: the values given on the command line are the ones the server
    runs with: the port is the one Serve listens on, the front address is
    the one origin of the CORS policy, and the Web UI path is the root of
    the file server. *)
Theorem command_line_reaches_server p origin dist :
  0 < p < 65536 ->
  let c := {| LocalPort := p; UIDistPath := dist; FrontEndServer := origin;
              StartRestApi := true; StartWebUI := true |} in
  result (ParseArgs (start [portArg (strconv.Itoa p); "-front_address=" ++ origin;
                            "-webui_path=" ++ dist])) = Some c /\
  cors.AllowedOrigins (corsOptions c) = [origin] /\
  uiHandler c = StripPrefix "/ui/" (FileServer dist) /\
  forall (release : Release) (collab : Collaborators) api net w,
    exists rest,
      trace (Serve c api net w) = (trace w ++ ListenTCP (":" ++ strconv.Itoa p) :: rest)%list.
Proof.
  intros Hp. cbv zeta. split; [|split; [reflexivity|split; [reflexivity|]]].
  - assert (E : strconv.ParseInt (strconv.Itoa p) 0 strconv.IntSize = (p, None)).
    { apply ParseInt_Itoa. change (2 ^ 63) with 9223372036854775808. lia. }
    rewrite portArg_eq. spell.
    unfold_flags. run. unfold_parse. run. rewrite E. run. unfold_config. run. reflexivity.
  - intros release collab api net w.
    destruct (Serve_trace {| LocalPort := p; UIDistPath := dist; FrontEndServer := origin;
                             StartRestApi := true; StartWebUI := true |} api net w)
      as (before & after & E & _).
    eexists. exact E.
Qed.

(** ** Instances *)

Lemma positional_argument_ends_flags_witness :
  (positional "serve" = true \/ "serve" = "--") /\
  result (ParseArgs (start ["serve"; "-port=9"])) = Some defaultConfig.
Proof.
  split; [left; reflexivity|].
  apply (positional_argument_ends_flags "serve" ["-port=9"]). left. reflexivity.
Defined.

Lemma bool_flag_takes_no_argument_witness :
  positional "false" = true /\
  result (ParseArgs (start ["-start_webui"; "false"])) = Some defaultConfig /\
  result (ParseArgs (start ["-start_restapi"; "false"])) = Some defaultConfig.
Proof.
  split; [reflexivity|].
  apply (bool_flag_takes_no_argument "false" []). reflexivity.
Defined.

Lemma unknown_flag_exits_witness :
  flagset.bad_syntax "verbose" = false /\
  flagset.split_value "verbose" = ("verbose", None) /\
  exists p',
    ParseArgs (start ["-verbose"]) = Exited 2 p' /\
    Stderr p' = ["flag provided but not defined: -verbose"; "Usage:"].
Proof.
  split; [reflexivity|]. split; [reflexivity|].
  apply (unknown_flag_exits "verbose" []); [reflexivity | reflexivity |].
  unfold declared. rewrite !lookup_insert_ne by discriminate. apply lookup_empty.
Defined.

Lemma Itoa_ParseInt_roundtrip_witness :
  - 2 ^ 63 <= 8080 < 2 ^ 63 /\
  strconv.ParseInt (strconv.Itoa 8080) 0 strconv.IntSize = (8080, None).
Proof.
  assert (H : - 2 ^ 63 <= 8080 < 2 ^ 63) by (split; [discriminate | reflexivity]).
  split; [exact H | apply (Itoa_ParseInt_roundtrip 8080 H)].
Defined.

Lemma command_line_reaches_server_witness :
  0 < 9000 < 65536 /\
  result (ParseArgs (start [portArg (strconv.Itoa 9000); "-front_address=" ++ "http://localhost:4200";
                            "-webui_path=" ++ "/srv/ui"])) =
  Some {| LocalPort := 9000; UIDistPath := "/srv/ui"; FrontEndServer := "http://localhost:4200";
          StartRestApi := true; StartWebUI := true |}.
Proof.
  split; [lia|].
  apply (command_line_reaches_server 9000 "http://localhost:4200" "/srv/ui"). lia.
Defined.

Lemma branches_independent_witness :
  strings.HasPrefix "/ui/index.html" "/ui/" = true /\
  @Router_handler mux_v1_8_1 (@rBase mux_v1_8_1 defaultConfig sampleApi)
    (request "GET" "/ui/index.html") =
  @Router_handler mux_v1_8_1 (@rBase mux_v1_8_1 defaultConfig [])
    (request "GET" "/ui/index.html").
Proof.
  split; [reflexivity|].
  apply (proj1 (@branches_independent mux_v1_8_1 defaultConfig sampleApi [] 0 "" true
                  (request "GET" "/ui/index.html"))). reflexivity.
Defined.

Lemma ui_request_served_witness :
  StartWebUI defaultConfig = true /\
  cleanPath "/ui/index.html" = "/ui/index.html" /\
  strings.HasPrefix "/ui/index.html" "/ui/" = true /\
  @serveRequest mux_v1_8_1 idle defaultConfig sampleApi (request "GET" "/ui/index.html") epoch =
  (mkWorld 0 [LogPrintf "GET" "/ui/index.html" 0], false).
Proof.
  repeat (split; [reflexivity|]).
  apply (@ui_request_served mux_v1_8_1 idle defaultConfig sampleApi
           (request "GET" "/ui/index.html") epoch); reflexivity.
Defined.

(** * ParseArgs: standard error, and a second call *)

Ltac told :=
  eexists _, _; split; [reflexivity|]; unfold reported; simpl;
  rewrite ?last_snoc; auto.

Lemma setFlag_reported name fl value rest p :
  Stderr p = [] ->
  exists r p', flagset.setFlag name fl value rest p = Returned r p' /\ reported r p'.
Proof.
  intros Hs. destruct p as [f argv err]. simpl in Hs. subst err. unfold flagset.setFlag.
  destruct (IsBoolFlag (Val fl)).
  - destruct (Value_Set (Val fl) (default "true" value)) as [v [e|]]; unfold_M; simpl; told.
  - destruct value as [value|]; [| destruct rest as [|value rest']].
    + destruct (Value_Set (Val fl) value) as [v [e|]]; unfold_M; simpl; told.
    + unfold_M. told.
    + destruct (Value_Set (Val fl) value) as [v [e|]]; unfold_M; simpl; told.
Qed.

Lemma parseOne_reported p :
  Stderr p = [] -> exists r p', flagset.parseOne p = Returned r p' /\ reported r p'.
Proof.
  intros Hs. destruct p as [f argv err]. simpl in Hs. subst err.
  unfold flagset.parseOne, bind at 1, getFlags. simpl.
  destruct (args f) as [|s rest] eqn:Ha; [told|].
  destruct s as [|c0 [|c1 tail]]; try told.
  destruct (negb (Ascii.eqb c0 "-")); [told|].
  destruct (Ascii.eqb c1 "-" && bool_decide (tail = "")); [unfold_M; told|].
  destruct (flagset.bad_syntax _); [unfold_M; told|].
  unfold bind at 1, flagset.setArgs at 1, bind at 1, getFlags, putFlags. simpl.
  destruct (formal f !! _) as [fl|] eqn:Hl.
  - apply setFlag_reported. reflexivity.
  - destruct (_ || _); unfold_M; told.
Qed.

Lemma parseLoop_reported n : forall p,
  ready p -> Stderr p = [] -> (length (args (CommandLine p)) <= n)%nat ->
  match flagset.parseLoop n p with
  | Returned _ p' => ready p' /\ Stderr p' = []
  | Exited _ p' => last (Stderr p') = Some "Usage:"
  | Panicked _ _ => False
  end.
Proof.
  induction n as [|n IH]; intros p Hr Hs Hn.
  - pose proof (parseOne_ready p Hr) as (r & p' & E & Hr' & Hlt).
    pose proof (parseOne_reported p Hs) as (r2 & p2 & E2 & Hrep).
    rewrite E in E2. injection E2 as <- <-.
    simpl. unfold bind, getFlags. rewrite E. destruct r as [[] e]; simpl in *.
    + specialize (Hlt eq_refl). lia.
    + unfold reported in Hrep. simpl in Hrep. destruct e as [e|]; [|split; assumption].
      rewrite (ready_exit _ Hr'). destruct e; apply Hrep.
  - pose proof (parseOne_ready p Hr) as (r & p' & E & Hr' & Hlt).
    pose proof (parseOne_reported p Hs) as (r2 & p2 & E2 & Hrep).
    rewrite E in E2. injection E2 as <- <-.
    simpl. unfold bind, getFlags. rewrite E. destruct r as [[] e]; simpl in *.
    + unfold reported in Hrep. simpl in Hrep. destruct e as [e|].
      * destruct Hrep as [Hf _]. discriminate Hf.
      * apply IH; auto. specialize (Hlt eq_refl). lia.
    + unfold reported in Hrep. simpl in Hrep. destruct e as [e|]; [|split; assumption].
      rewrite (ready_exit _ Hr'). destruct e; apply Hrep.
Qed.

Lemma ParseArgs_ready argv c p' :
  ParseArgs (start argv) = Returned c p' -> ready p' /\ Stderr p' = [].
Proof.
  rewrite ParseArgs_split. unfold bind. rewrite ParseArgs_flags_eq.
  pose proof (parseLoop_reported (length argv) (parsing argv) (parsing_ready argv) eq_refl) as H.
  destruct (flagset.parseLoop _ _) as [r q|code q|msg q]; try discriminate.
  intros E. destruct (H ltac:(simpl; lia)) as [Hr Hs].
  destruct (ParseArgs_config_ready q Hr) as (c' & Ec). rewrite Ec in E.
  injection E as <- <-. split; assumption.
Qed.

(** X13: ParseArgs writes nothing to standard error when it returns, and
    never ends the process silently: before it exits the usage text is
    printed. *)
Theorem ParseArgs_stderr argv :
  match ParseArgs (start argv) with
  | Returned _ p' => Stderr p' = []
  | Exited _ p' => last (Stderr p') = Some "Usage:"
  | Panicked _ _ => False
  end.
Proof.
  rewrite ParseArgs_split. unfold bind. rewrite ParseArgs_flags_eq.
  pose proof (parseLoop_reported (length argv) (parsing argv) (parsing_ready argv) eq_refl) as H.
  destruct (flagset.parseLoop _ _) as [r q|code q|msg q].
  - destruct (H ltac:(simpl; lia)) as [Hr Hs].
    destruct (ParseArgs_config_ready q Hr) as (c' & ->). exact Hs.
  - apply H. simpl. lia.
  - apply H. simpl. lia.
Qed.

(** X14: ParseArgs declares its flags on the one command line of the
    process, so it can be called once: a second call panics when it
    declares the port flag again. *)
Theorem ParseArgs_twice_panics argv c p' :
  ParseArgs (start argv) = Returned c p' ->
  exists msg p'', ParseArgs p' = Panicked msg p''.
Proof.
  intros E. destruct (ParseArgs_ready argv c p' E) as [Hr _].
  apply ParseArgs_redeclares, Hr.
Qed.

Lemma ParseArgs_twice_panics_witness :
  exists msg p'', ParseArgs (parsing []) = Panicked msg p''.
Proof.
  apply (ParseArgs_twice_panics [] defaultConfig (parsing [])).
  unfold_flags. run. unfold_parse. run. unfold_config. run. reflexivity.
Defined.
